(** * DailyAI: the deduplication and ranking pipeline

    A shallow embedding of [src/models/tweet.py],
    [src/processors/deduplication.py] and [src/processors/ranking.py],
    with the conversion of [src/collectors/x_collector.py], the tables of
    [src/storage/db_manager.py] and the stored part of the daily run of
    [src/main.py], and the properties of the pipeline proved over it.

    Modelling conventions.
    - A Python [str] is a [string]; a Python [int] is a [Z].
    - A Python [float] is an exact rational [Q]: rounding, overflow, NaN and
      infinities of binary64 are outside the model.  Equality of floats is
      [Qeq], written [==].
    - [math.exp] is a library function, taken as a parameter of the ranking
      section, a total function on the rationals (its [OverflowError] on
      large arguments belongs to binary64).
    - A [dict] keyed by strings whose order is irrelevant (the weights) is a
      [gmap string Q]; the insertion-ordered [score_components] dict is an
      association list.
    - A [Tweet] object lives in a store addressed by references; [rank]
      mutates the store in place and returns a list of references.
      [deduplicate] reads the items and writes none, so it is given the
      list of the items themselves.
    - A raised exception is a value of [exn]; a computation that may raise
      returns a [result].
    - A table of the SQLite database is a [gmap] from the primary key to
      the row; a method that catches its exceptions returns the committed
      table with its answer.  Failures of the connection or of the disk
      are outside the model. *)

From Stdlib Require Import ZArith QArith Qround Qabs String Ascii DecimalString List Permutation Sorted Lia Lqa.
From stdpp Require Import gmap strings list fin_maps.

Local Open Scope string_scope.
Local Open Scope list_scope.

(** ** The item record ([src/models/tweet.py]) *)

(** A [datetime]: the wall-clock reading in microseconds since the epoch,
    and the UTC offset of its [tzinfo] in microseconds ([None] for a naive
    value). *)
Record datetime := mk_datetime {
  wall_us : Z;
  tzinfo : option Z
}.

(** [d.replace(tzinfo=timezone.utc)]: the reading is kept, the zone is
    replaced. *)
Definition replace_tzinfo_utc (d : datetime) : datetime :=
  {| wall_us := wall_us d; tzinfo := Some 0%Z |}.

(** [(a - b).total_seconds()] for two aware values. *)
Definition total_seconds_between (a b : datetime) : Q :=
  let off d := match tzinfo d with Some o => o | None => 0%Z end in
  inject_Z ((wall_us a - off a) - (wall_us b - off b)) / inject_Z 1000000.

Module Tweet.
(** The dataclass [Tweet].  [created_at] is [None] for any value that is
    not a [datetime]; an engagement field is [None] when the attribute
    holds Python's [None]. *)
Record t := mk {
  id : string;
  author : string;
  author_fullname : string;
  content : string;
  created_at : option datetime;
  url : string;
  platform : string;
  likes : option Z;
  retweets : option Z;
  replies : option Z;
  quotes : option Z;
  referenced_urls : list string;
  media_urls : list string;
  rank_score : option Q;
  rank_reason : option string
}.

(** The dataclass constructor called with the six required fields only:
    every other field takes its declared default. *)
Definition init (id author author_fullname content : string)
    (created_at : option datetime) (url : string) : t :=
  {| id := id; author := author; author_fullname := author_fullname;
     content := content; created_at := created_at; url := url;
     platform := "X";
     likes := Some 0%Z; retweets := Some 0%Z;
     replies := Some 0%Z; quotes := Some 0%Z;
     referenced_urls := []; media_urls := [];
     rank_score := None; rank_reason := None |}.
End Tweet.

(** ** The collector's conversion ([XCollector._convert_to_model]) *)





(** ** Deduplication ([src/processors/deduplication.py]) *)

(** [db_manager] is the duplicate oracle: [is_duplicate_tweet] is a lookup
    that never raises (the source catches every exception and answers
    [False]).  [seen_ids] is the set of ids of the current batch. *)
Record TweetDeduplicator := mk_dedup {
  db_manager : option (string -> bool);
  seen_ids : gset string
}.

(** [self.db_manager and self.db_manager.is_duplicate_tweet(tweet.id)] *)
Definition in_database (db : option (string -> bool)) (tweet_id : string) : bool :=
  match db with
  | Some is_duplicate_tweet => is_duplicate_tweet tweet_id
  | None => false
  end.

(** The [for tweet in tweets] loop of [deduplicate], threading [seen_ids]
    and [unique_tweets]. *)
Fixpoint dedup_loop (db : option (string -> bool)) (seen : gset string)
    (unique_tweets tweets : list Tweet.t) : gset string * list Tweet.t :=
  match tweets with
  | [] => (seen, unique_tweets)
  | tweet :: rest =>
      if bool_decide (Tweet.id tweet ∈ seen) then
        dedup_loop db seen unique_tweets rest
      else if in_database db (Tweet.id tweet) then
        dedup_loop db seen unique_tweets rest
      else
        dedup_loop db ({[Tweet.id tweet]} ∪ seen) (unique_tweets ++ [tweet]) rest
  end.

(** [TweetDeduplicator.deduplicate]: the deduplicator after the call and
    the returned list. *)
Definition deduplicate (self : TweetDeduplicator) (tweets : list Tweet.t)
    : TweetDeduplicator * list Tweet.t :=
  match tweets with
  | [] => (self, [])
  | _ =>
      let '(seen, unique_tweets) := dedup_loop (db_manager self) ∅ [] tweets in
      ({| db_manager := db_manager self; seen_ids := seen |}, unique_tweets)
  end.

(** *** What deduplication is meant to compute *)

(** Position [i] of [tweets] holds the first occurrence of its id, and the
    oracle does not know that id. *)
Definition first_fresh (is_dup : string -> bool) (tweets : list Tweet.t) (i : nat) : bool :=
  match tweets !! i with
  | Some tweet =>
      negb (is_dup (Tweet.id tweet))
      && bool_decide (Tweet.id tweet ∉ (Tweet.id <$> take i tweets))
  | None => false
  end.

(** The items at the positions selected by [keep], in input order. *)
Definition select_positions (keep : nat -> bool) (tweets : list Tweet.t) : list Tweet.t :=
  omap (λ i, if keep i then tweets !! i else None) (seq 0 (length tweets)).

(** The number of positions that hold a duplicate: an id already seen at
    an earlier position of the batch, or an id the oracle reports. *)
Definition duplicates_removed (is_dup : string -> bool) (tweets : list Tweet.t) : nat :=
  length (filter (λ i, first_fresh is_dup tweets i = false) (seq 0 (length tweets))).

(** ** Exceptions *)

Inductive exn := TypeError | KeyError | ZeroDivisionError.

Inductive result (A : Type) :=
| Ok (a : A)
| Raise (e : exn).
Arguments Ok {A} a.
Arguments Raise {A} e.

#[global] Instance result_ret : MRet result := λ A a, Ok a.
#[global] Instance result_bind : MBind result := λ A B f m,
  match m with
  | Ok a => f a
  | Raise e => Raise e
  end.

(** ** String helpers of the Python runtime *)

(** [str.lower], on the ASCII letters (the bytes of other characters are
    left as they are). *)
Definition ascii_lower (c : ascii) : ascii :=
  let n := nat_of_ascii c in
  if (65 <=? n)%nat && (n <=? 90)%nat then ascii_of_nat (n + 32) else c.

Fixpoint lower (s : string) : string :=
  match s with
  | EmptyString => EmptyString
  | String c rest => String (ascii_lower c) (lower rest)
  end.

(** [needle in haystack] on strings. *)
Fixpoint contains (haystack needle : string) : bool :=
  if String.prefix needle haystack then true
  else match haystack with
       | EmptyString => false
       | String _ rest => contains rest needle
       end.

Fixpoint mem_char (c : ascii) (chars : string) : bool :=
  match chars with
  | EmptyString => false
  | String c' rest => if Ascii.eqb c c' then true else mem_char c rest
  end.

(** [s.rstrip(chars)]: drop the longest suffix made of characters of
    [chars]. *)
Fixpoint rstrip (chars s : string) : string :=
  match s with
  | EmptyString => EmptyString
  | String c rest =>
      match rstrip chars rest with
      | EmptyString => if mem_char c chars then EmptyString else String c EmptyString
      | kept => String c kept
      end
  end.


Local Open Scope Q_scope.

(** *** [f"{x:.2f}"] *)

(** Rounding to the nearest integer, ties to even. *)
Definition round_half_even (q : Q) : Z :=
  let f := Qfloor q in
  match Qcompare (q - inject_Z f) (1 # 2) with
  | Lt => f
  | Gt => (f + 1)%Z
  | Eq => if Z.even f then f else (f + 1)%Z
  end.

Definition decimal_of_Z (n : Z) : string :=
  NilZero.string_of_uint (N.to_uint (Z.to_N n)).

Definition digit_char (d : Z) : ascii :=
  ascii_of_nat (48 + Z.to_nat d).

(** The magnitude in hundredths, rounded. *)
Definition hundredths_of (x : Q) : Z := round_half_even (Qabs x * 100).

(** The sign and the integer part. *)
Definition integer_part_of (x : Q) : string :=
  (if Qlt_le_dec x 0 then "-" else "") +:+ decimal_of_Z (hundredths_of x / 100).

(** The two decimals. *)
Definition decimals_of (x : Q) : string :=
  String (digit_char (hundredths_of x mod 100 / 10))
    (String (digit_char (hundredths_of x mod 10)) EmptyString).

Definition format_2f (x : Q) : string :=
  integer_part_of x +:+ "." +:+ decimals_of x.

(** ** Ranking ([src/processors/ranking.py]) *)

(** An insertion-ordered [dict]: [d[k] = v] replaces the value of an
    existing key in place and appends a new key at the end. *)
Fixpoint dict_setitem {V} (k : string) (v : V) (d : list (string * V)) : list (string * V) :=
  match d with
  | [] => [(k, v)]
  | (k', v') :: rest =>
      if String.eqb k k' then (k, v) :: rest else (k', v') :: dict_setitem k v rest
  end.

(** The ranking configuration, as [__init__] reads it: every entry may be
    absent. *)
Record RankingConfig := mk_config {
  config_weights : option (gmap string Q);
  config_auto_learning : option bool;
  config_learning_rate : option Q;
  config_min_engagement_threshold : option Q;
  config_keywords : option (list string)
}.

Record TweetRanker := mk_ranker {
  config : RankingConfig;
  weights : gmap string Q;
  auto_learning : bool;
  learning_rate : Q;
  min_engagement : Q
}.

(** [TweetRanker.__init__] *)
Definition TweetRanker_init (ranking_config : RankingConfig) : TweetRanker :=
  {| config := ranking_config;
     weights := default ∅ (config_weights ranking_config);
     auto_learning := default false (config_auto_learning ranking_config);
     learning_rate := default (1 # 100) (config_learning_rate ranking_config);
     min_engagement := default 10 (config_min_engagement_threshold ranking_config) |}.

(** [self.weights.get(key, fallback)] *)
Definition weights_get (self : TweetRanker) (key : string) (fallback : Q) : Q :=
  default fallback (weights self !! key).

(** [weight * count] for an engagement attribute: a [float] times an
    [int], or a [TypeError] when the attribute holds [None]. *)
Definition mul_count (weight : Q) (count : option Z) : result Q :=
  match count with
  | Some n => Ok (weight * inject_Z n)
  | None => Raise TypeError
  end.

(** [a / b] on numbers: a [ZeroDivisionError] when the divisor is zero. *)
Definition float_div (a b : Q) : result Q :=
  if Qeq_bool b 0 then Raise ZeroDivisionError else Ok (a / b).

(** [sum(xs)] over floats: the additions start from 0, left to right. *)
Definition sum_floats (xs : list Q) : Q := fold_left Qplus xs 0.

(** The text in front of the first entry of a reason (the bytes of its
    UTF-8 encoding). *)
Definition reason_header : string := "排名因素: ".

(** *** Auto-learning *)

(** [sum(t.attr for t in top_tweets)]: integer additions from 0, left to
    right; adding [None] raises. *)
Fixpoint sum_counts (counts : list (option Z)) (acc : Z) : result Z :=
  match counts with
  | [] => Ok acc
  | Some n :: rest => sum_counts rest (acc + n)%Z
  | None :: _ => Raise TypeError
  end.

(** [sum(t.attr for t in top_tweets) / len(top_tweets)] *)
Definition average (attr : Tweet.t → option Z) (top_tweets : list Tweet.t) : result Q :=
  total ← sum_counts (attr <$> top_tweets) 0%Z;
  float_div (inject_Z total) (inject_Z (Z.of_nat (length top_tweets))).

(** [weights[key] += rate]: a [KeyError] when the key is absent. *)
Definition weights_increment (key : string) (rate : Q) (w : gmap string Q)
    : result (gmap string Q) :=
  match w !! key with
  | Some v => Ok (<[key := v + rate]> w)
  | None => Raise KeyError
  end.

(** [if avg > self.min_engagement: self.weights[key] += self.learning_rate] *)
Definition reinforce (self : TweetRanker) (avg : Q) (key : string) (w : gmap string Q)
    : result (gmap string Q) :=
  if Qlt_le_dec (min_engagement self) avg
  then weights_increment key (learning_rate self) w
  else Ok w.

(** The weights after the four conditional increments of
    [_adjust_weights], before normalisation. *)
Definition incremented_weights (self : TweetRanker) (top_tweets : list Tweet.t)
    : result (gmap string Q) :=
  avg_likes ← average Tweet.likes top_tweets;
  avg_retweets ← average Tweet.retweets top_tweets;
  avg_replies ← average Tweet.replies top_tweets;
  avg_quotes ← average Tweet.quotes top_tweets;
  w ← reinforce self avg_likes "likes" (weights self);
  w ← reinforce self avg_retweets "retweets" w;
  w ← reinforce self avg_replies "replies" w;
  reinforce self avg_quotes "quotes" w.

(** [sum(self.weights.values())] *)
Definition sum_weights (w : gmap string Q) : Q :=
  sum_floats (map_to_list w).*2.

(** [for key in self.weights: self.weights[key] /= total]: the keys are
    those of the dict when the loop starts, every value is read from and
    written back to the dict being updated. *)
Definition divide_weights (total : Q) (w : gmap string Q) : result (gmap string Q) :=
  map_fold
    (λ key _ acc,
       w' ← acc;
       match w' !! key with
       | Some v => v' ← float_div v total; Ok (<[key := v']> w')
       | None => Raise KeyError
       end)
    (Ok w) w.

(** [total = sum(self.weights.values()); if total > 0: ...] *)
Definition normalize_weights (w : gmap string Q) : result (gmap string Q) :=
  let total := sum_weights w in
  if Qlt_le_dec 0 total then divide_weights total w else Ok w.

Definition with_weights (self : TweetRanker) (w : gmap string Q) : TweetRanker :=
  {| config := config self; weights := w;
     auto_learning := auto_learning self;
     learning_rate := learning_rate self;
     min_engagement := min_engagement self |}.

(** [TweetRanker._adjust_weights]: the ranker after the call. *)
Definition adjust_weights (self : TweetRanker) (top_tweets : list Tweet.t)
    : result TweetRanker :=
  match top_tweets with
  | [] => Ok self
  | _ =>
      w ← incremented_weights self top_tweets;
      w ← normalize_weights w;
      Ok (with_weights self w)
  end.

(** *** Sorting and [rank] *)

(** The store of [Tweet] objects: [rank] receives a list of references and
    writes the scores through them. *)
Definition loc := nat.
Definition Store := loc → Tweet.t.

Definition store_set (heap : Store) (r : loc) (tweet : Tweet.t) : Store :=
  λ r', if decide (r' = r) then tweet else heap r'.

(** [tweet.rank_score = score; tweet.rank_reason = reason] *)
Definition set_rank (tweet : Tweet.t) (score : Q) (reason : string) : Tweet.t :=
  {| Tweet.id := Tweet.id tweet;
     Tweet.author := Tweet.author tweet;
     Tweet.author_fullname := Tweet.author_fullname tweet;
     Tweet.content := Tweet.content tweet;
     Tweet.created_at := Tweet.created_at tweet;
     Tweet.url := Tweet.url tweet;
     Tweet.platform := Tweet.platform tweet;
     Tweet.likes := Tweet.likes tweet;
     Tweet.retweets := Tweet.retweets tweet;
     Tweet.replies := Tweet.replies tweet;
     Tweet.quotes := Tweet.quotes tweet;
     Tweet.referenced_urls := Tweet.referenced_urls tweet;
     Tweet.media_urls := Tweet.media_urls tweet;
     Tweet.rank_score := Some score;
     Tweet.rank_reason := Some reason |}.

(** [t.rank_score or 0]: [None] and a zero score both give 0. *)
Definition score_or_zero (rank_score : option Q) : Q :=
  match rank_score with
  | Some score => if Qeq_bool score 0 then 0 else score
  | None => 0
  end.

(** [sorted(xs, key=key, reverse=True)]: Python's sort is stable, also
    with [reverse=True]; it is modelled by the stable insertion sort in
    descending key order. *)
Fixpoint insert_desc {A} (key : A → Q) (x : A) (sorted : list A) : list A :=
  match sorted with
  | [] => [x]
  | y :: rest =>
      if Qle_bool (key y) (key x) then x :: y :: rest
      else y :: insert_desc key x rest
  end.

Definition sorted_desc {A} (key : A → Q) (xs : list A) : list A :=
  foldr (insert_desc key) [] xs.

(** The sort key of line 56, read through a reference. *)
Definition sort_key (heap : Store) (r : loc) : Q :=
  score_or_zero (Tweet.rank_score (heap r)).

Section Ranking.

(** [math.exp] *)
Variable math_exp : Q → Q.

Definition engagement_score (self : TweetRanker) (tweet : Tweet.t) : result Q :=
  l ← mul_count (weights_get self "likes" (3 # 10)) (Tweet.likes tweet);
  r ← mul_count (weights_get self "retweets" (4 # 10)) (Tweet.retweets tweet);
  p ← mul_count (weights_get self "replies" (1 # 10)) (Tweet.replies tweet);
  q ← mul_count (weights_get self "quotes" (2 # 10)) (Tweet.quotes tweet);
  Ok (l + r + p + q).

Definition recency_score (self : TweetRanker) (now : datetime) (tweet : Tweet.t) : Q :=
  let recency_weight := weights_get self "recency" (5 # 10) in
  match Tweet.created_at tweet with
  | Some created_at =>
      let age_hours :=
        total_seconds_between now (replace_tzinfo_utc created_at) / 3600 in
      recency_weight * math_exp (- (1 # 100) * age_hours)
  | None => 0
  end.

Definition influence_score (self : TweetRanker) : Q :=
  weights_get self "user_influence" (6 # 10).

Definition keywords_score (self : TweetRanker) (tweet : Tweet.t) : result Q :=
  let keywords_weight := weights_get self "keywords_match" (7 # 10) in
  match config_keywords (config self) with
  | Some keywords =>
      let content_lower := lower (Tweet.content tweet) in
      fold_left
        (λ acc keyword,
           keywords_score ← acc;
           if contains content_lower (lower keyword)
           then share ← float_div keywords_weight
                          (inject_Z (Z.of_nat (length keywords)));
                Ok (keywords_score + share)
           else Ok keywords_score)
        keywords (Ok 0)
  | None => Ok 0
  end.

(** The [score_components] dict after its four assignments. *)
Definition score_components (self : TweetRanker) (now : datetime) (tweet : Tweet.t)
    : result (list (string * Q)) :=
  engagement ← engagement_score self tweet;
  keywords ← keywords_score self tweet;
  Ok (dict_setitem "keywords" keywords
       (dict_setitem "influence" (influence_score self)
         (dict_setitem "recency" (recency_score self now tweet)
           (dict_setitem "engagement" engagement [])))).

(** The reason string: the header, then ["factor: value, "] for every
    entry of the dict in order, then [rstrip(", ")]. *)
Definition reason_of (components : list (string * Q)) : string :=
  rstrip ", "
    (fold_left (λ reason '(factor, score),
                  reason +:+ factor +:+ ": " +:+ format_2f score +:+ ", ")
               components reason_header).

(** [TweetRanker._calculate_score]; [now] is the value of
    [datetime.now(timezone.utc)] read by the call. *)
Definition calculate_score (self : TweetRanker) (now : datetime) (tweet : Tweet.t)
    : result (Q * string) :=
  components ← score_components self now tweet;
  Ok (sum_floats components.*2, reason_of components).

(** The scoring loop of [rank]; [clock n] is the reading, in microseconds,
    of the [n]-th call of [datetime.now(timezone.utc)]. *)
Fixpoint score_tweets (self : TweetRanker) (clock : nat → Z) (n : nat)
    (heap : Store) (tweets : list loc) : result Store :=
  match tweets with
  | [] => Ok heap
  | r :: rest =>
      '(score, reason) ← calculate_score self (mk_datetime (clock n) (Some 0%Z)) (heap r);
      score_tweets self clock (S n) (store_set heap r (set_rank (heap r) score reason)) rest
  end.

(** [TweetRanker.rank]: the ranker and the store after the call, and the
    returned list. *)
Definition rank (self : TweetRanker) (clock : nat → Z) (heap : Store)
    (tweets : list loc) : result (TweetRanker * Store * list loc) :=
  heap' ← score_tweets self clock 0 heap tweets;
  let ranked_tweets := sorted_desc (sort_key heap') tweets in
  self' ← (if auto_learning self && (5 <? length tweets)%nat
           then adjust_weights self (heap' <$> take 10 ranked_tweets)
           else Ok self);
  Ok (self', heap', ranked_tweets).

End Ranking.

Local Close Scope Q_scope.

(** ** The other methods of the deduplicator *)

(** [TweetDeduplicator.filter_updates]: the loop appends to [updates] the
    items whose id is in [known_ids]. *)
Fixpoint filter_updates_loop (known_ids : gset string)
    (updates tweets : list Tweet.t) : list Tweet.t :=
  match tweets with
  | [] => updates
  | tweet :: rest =>
      if bool_decide (Tweet.id tweet ∈ known_ids)
      then filter_updates_loop known_ids (updates ++ [tweet]) rest
      else filter_updates_loop known_ids updates rest
  end.

Definition filter_updates (tweets : list Tweet.t) (known_ids : gset string)
    : list Tweet.t :=
  filter_updates_loop known_ids [] tweets.

(** The ASCII characters that [str.split()] treats as white space. *)
Definition is_whitespace (c : ascii) : bool :=
  let n := nat_of_ascii c in
  ((9 <=? n)%nat && (n <=? 13)%nat)
  || ((28 <=? n)%nat && (n <=? 32)%nat).

(** [s.split()]: the maximal runs of characters other than white space;
    [word] is the run being read. *)
Fixpoint split_go (word s : string) : list string :=
  match s with
  | EmptyString => match word with EmptyString => [] | _ => [word] end
  | String c rest =>
      if is_whitespace c
      then match word with
           | EmptyString => split_go EmptyString rest
           | _ => word :: split_go EmptyString rest
           end
      else split_go (word +:+ String c EmptyString) rest
  end.

Definition split (s : string) : list string := split_go EmptyString s.

(** [set(text.lower().split())] *)
Definition words_of (text : string) : gset string :=
  list_to_set (split (lower text)).

(** [TweetDeduplicator.calculate_similarity] *)
Definition calculate_similarity (text1 text2 : string) : result Q :=
  if String.eqb text1 "" || String.eqb text2 "" then Ok 0%Q
  else
    let words1 := words_of text1 in
    let words2 := words_of text2 in
    let intersection := size (words1 ∩ words2) in
    let union := size (words1 ∪ words2) in
    if (union =? 0)%nat then Ok 0%Q
    else float_div (inject_Z (Z.of_nat intersection)) (inject_Z (Z.of_nat union)).

(** ** Vocabulary of the properties *)

(** The four engagement metrics, their weight keys and the fallback of
    [weights.get] in [_calculate_score]. *)
Inductive metric := Likes | Retweets | Replies | Quotes.

Definition metric_count (m : metric) (tweet : Tweet.t) : option Z :=
  match m with
  | Likes => Tweet.likes tweet
  | Retweets => Tweet.retweets tweet
  | Replies => Tweet.replies tweet
  | Quotes => Tweet.quotes tweet
  end.


(** The item with the field of metric [m] replaced. *)
Definition with_metric_count (m : metric) (count : option Z) (tweet : Tweet.t) : Tweet.t :=
  {| Tweet.id := Tweet.id tweet;
     Tweet.author := Tweet.author tweet;
     Tweet.author_fullname := Tweet.author_fullname tweet;
     Tweet.content := Tweet.content tweet;
     Tweet.created_at := Tweet.created_at tweet;
     Tweet.url := Tweet.url tweet;
     Tweet.platform := Tweet.platform tweet;
     Tweet.likes := match m with Likes => count | _ => Tweet.likes tweet end;
     Tweet.retweets := match m with Retweets => count | _ => Tweet.retweets tweet end;
     Tweet.replies := match m with Replies => count | _ => Tweet.replies tweet end;
     Tweet.quotes := match m with Quotes => count | _ => Tweet.quotes tweet end;
     Tweet.referenced_urls := Tweet.referenced_urls tweet;
     Tweet.media_urls := Tweet.media_urls tweet;
     Tweet.rank_score := Tweet.rank_score tweet;
     Tweet.rank_reason := Tweet.rank_reason tweet |}.

(** Two items agree on every field other than the two that [rank]
    derives. *)
Definition same_collected_fields (a b : Tweet.t) : Prop :=
  Tweet.id a = Tweet.id b
  ∧ Tweet.author a = Tweet.author b
  ∧ Tweet.author_fullname a = Tweet.author_fullname b
  ∧ Tweet.content a = Tweet.content b
  ∧ Tweet.created_at a = Tweet.created_at b
  ∧ Tweet.url a = Tweet.url b
  ∧ Tweet.platform a = Tweet.platform b
  ∧ Tweet.likes a = Tweet.likes b
  ∧ Tweet.retweets a = Tweet.retweets b
  ∧ Tweet.replies a = Tweet.replies b
  ∧ Tweet.quotes a = Tweet.quotes b
  ∧ Tweet.referenced_urls a = Tweet.referenced_urls b
  ∧ Tweet.media_urls a = Tweet.media_urls b.

(** Descending order of the keys: [a] may stand before [b]. *)
Definition desc {A} (key : A → Q) (a b : A) : Prop := (key b <= key a)%Q.

(** The items of [xs] whose key equals [k], in the order of [xs]. *)
Definition with_key {A} (key : A → Q) (k : Q) (xs : list A) : list A :=
  List.filter (λ a, Qeq_bool (key a) k) xs.

(** *** Sample inputs *)

(** A rational stand-in for [math.exp], used where a property is
    evaluated on concrete inputs. *)
Definition exp_sample (x : Q) : Q := (1 + x + x * x / 2)%Q.

(** A ranker built from an empty configuration: every option takes its
    default. *)
Definition sample_ranker : TweetRanker :=
  TweetRanker_init (mk_config None None None None None).

(** A ranker with all seven weights configured, auto-learning enabled and
    two keywords. *)
Definition sample_learning_ranker : TweetRanker :=
  TweetRanker_init
    (mk_config
       (Some (list_to_map
                [("likes", 3 # 10); ("retweets", 4 # 10); ("replies", 1 # 10);
                 ("quotes", 2 # 10); ("recency", 5 # 10);
                 ("user_influence", 6 # 10); ("keywords_match", 7 # 10)]%Q))
       (Some true) (Some (1 # 100)%Q) (Some 10%Q) (Some ["AI"; "GPT"])).

Definition sample_now : datetime := mk_datetime 7200000000 (Some 0%Z).

Definition sample_tweet (id : string) (likes retweets : Z) : Tweet.t :=
  Tweet.mk id "openai" "OpenAI" "New AI model released"
    (Some (mk_datetime 3600000000 None)) "https://x.com/openai/status/1" "X"
    (Some likes) (Some retweets) (Some 0%Z) (Some 0%Z) [] [] None None.

(** An item whose [likes] attribute holds [None]. *)
Definition sample_tweet_null_likes : Tweet.t :=
  with_metric_count Likes None (sample_tweet "1" 0 0).

Definition sample_heap : Store :=
  λ r, match r with
       | 0%nat => sample_tweet "a" 100 10
       | 1%nat => sample_tweet "b" 10 5
       | 2%nat => sample_tweet "c" 5 1
       | 3%nat => sample_tweet "d" 10 5
       | _ => sample_tweet_null_likes
       end.

(** The clock read by the scoring loop: one microsecond passes between
    two readings. *)
Definition sample_clock (n : nat) : Z := (7200000000 + Z.of_nat n)%Z.

(** A ranker whose seven weights are all zero, with auto-learning
    enabled. *)
Definition sample_zero_ranker : TweetRanker :=
  TweetRanker_init
    (mk_config
       (Some (list_to_map
                [("likes", 0); ("retweets", 0); ("replies", 0); ("quotes", 0);
                 ("recency", 0); ("user_influence", 0); ("keywords_match", 0)]%Q))
       (Some true) (Some (1 # 100)%Q) (Some 10%Q) None).

(** Top items whose mean number of likes exceeds the threshold 10. *)
Definition sample_top_tweets : list Tweet.t :=
  [sample_tweet "a" 100 10; sample_tweet "b" 10 5].

(** Top items below the threshold on every metric. *)
Definition sample_quiet_tweets : list Tweet.t :=
  [sample_tweet "c" 5 1].

(** ** Vocabulary and models of the further properties *)

(** The four engagement fields of an item hold integers. *)
Definition has_counts (tweet : Tweet.t) : Prop :=
  ∀ m, is_Some (metric_count m tweet).

Definition metric_key (m : metric) : string :=
  match m with
  | Likes => "likes"
  | Retweets => "retweets"
  | Replies => "replies"
  | Quotes => "quotes"
  end.


(** [xs[:k]], for a count [k] of either sign. *)
Definition slice_to {A} (k : Z) (xs : list A) : list A :=
  if (0 <=? k)%Z then take (Z.to_nat k) xs
  else take (length xs - Z.to_nat (- k)) xs.

(** ** Dictionaries of an item ([Tweet.to_dict], [Tweet.from_dict]) *)

(** The Python values that occur in the dictionary of an item. *)
Inductive pyval :=
| PNone
| PStr (s : string)
| PInt (n : Z)
| PFloat (x : Q)
| PList (l : list string)
| PDatetime (d : datetime).

Definition of_count (c : option Z) : pyval :=
  match c with Some n => PInt n | None => PNone end.

Section TweetDict.

(** [datetime.isoformat], [datetime.fromisoformat] and
    [datetime.strptime(_, '%Y-%m-%dT%H:%M:%S.%fZ')]; a parser answers
    [None] where Python raises [ValueError]. *)
Variable isoformat : datetime → string.
Variable fromisoformat : string → option datetime.
Variable strptime : string → option datetime.

(** [Tweet.to_dict]; a [created_at] that is not a [datetime] is taken to
    be Python's [None]. *)
Definition to_dict (self : Tweet.t) : gmap string pyval :=
  list_to_map
    [("id", PStr (Tweet.id self));
     ("author", PStr (Tweet.author self));
     ("author_fullname", PStr (Tweet.author_fullname self));
     ("content", PStr (Tweet.content self));
     ("created_at",
      match Tweet.created_at self with
      | Some d => PStr (isoformat d)
      | None => PNone
      end);
     ("url", PStr (Tweet.url self));
     ("platform", PStr (Tweet.platform self));
     ("likes", of_count (Tweet.likes self));
     ("retweets", of_count (Tweet.retweets self));
     ("replies", of_count (Tweet.replies self));
     ("quotes", of_count (Tweet.quotes self));
     ("referenced_urls", PList (Tweet.referenced_urls self));
     ("media_urls", PList (Tweet.media_urls self));
     ("rank_score",
      match Tweet.rank_score self with Some x => PFloat x | None => PNone end);
     ("rank_reason",
      match Tweet.rank_reason self with Some s => PStr s | None => PNone end)].

(** The object that [Tweet.from_dict] builds: the constructor checks no
    type, so every attribute holds whatever the dictionary held. *)
Record DynTweet := mk_dyn {
  dyn_id : pyval;
  dyn_author : pyval;
  dyn_author_fullname : pyval;
  dyn_content : pyval;
  dyn_created_at : pyval;
  dyn_url : pyval;
  dyn_platform : pyval;
  dyn_likes : pyval;
  dyn_retweets : pyval;
  dyn_replies : pyval;
  dyn_quotes : pyval;
  dyn_referenced_urls : pyval;
  dyn_media_urls : pyval;
  dyn_rank_score : pyval;
  dyn_rank_reason : pyval
}.

(** [data.get(key)] and [data.get(key, fallback)] *)
Definition dict_get (data : gmap string pyval) (key : string) (fallback : pyval) : pyval :=
  default fallback (data !! key).

(** [Tweet.from_dict]; [now] is the value of [datetime.now()] read when
    neither format parses the string. *)
Definition from_dict (now : datetime) (data : gmap string pyval) : DynTweet :=
  let created_at :=
    match dict_get data "created_at" PNone with
    | PStr s =>
        match fromisoformat s with
        | Some d => PDatetime d
        | None =>
            match strptime s with
            | Some d => PDatetime d
            | None => PDatetime now
            end
        end
    | other => other
    end in
  {| dyn_id := dict_get data "id" PNone;
     dyn_author := dict_get data "author" PNone;
     dyn_author_fullname := dict_get data "author_fullname" PNone;
     dyn_content := dict_get data "content" PNone;
     dyn_created_at := created_at;
     dyn_url := dict_get data "url" PNone;
     dyn_platform := dict_get data "platform" (PStr "X");
     dyn_likes := dict_get data "likes" (PInt 0);
     dyn_retweets := dict_get data "retweets" (PInt 0);
     dyn_replies := dict_get data "replies" (PInt 0);
     dyn_quotes := dict_get data "quotes" (PInt 0);
     dyn_referenced_urls := dict_get data "referenced_urls" (PList []);
     dyn_media_urls := dict_get data "media_urls" (PList []);
     dyn_rank_score := dict_get data "rank_score" PNone;
     dyn_rank_reason := dict_get data "rank_reason" PNone |}.

End TweetDict.

(** A typed item seen as the object of the constructor. *)
Definition dyn_of (t : Tweet.t) : DynTweet :=
  {| dyn_id := PStr (Tweet.id t);
     dyn_author := PStr (Tweet.author t);
     dyn_author_fullname := PStr (Tweet.author_fullname t);
     dyn_content := PStr (Tweet.content t);
     dyn_created_at :=
       match Tweet.created_at t with Some d => PDatetime d | None => PNone end;
     dyn_url := PStr (Tweet.url t);
     dyn_platform := PStr (Tweet.platform t);
     dyn_likes := of_count (Tweet.likes t);
     dyn_retweets := of_count (Tweet.retweets t);
     dyn_replies := of_count (Tweet.replies t);
     dyn_quotes := of_count (Tweet.quotes t);
     dyn_referenced_urls := PList (Tweet.referenced_urls t);
     dyn_media_urls := PList (Tweet.media_urls t);
     dyn_rank_score :=
       match Tweet.rank_score t with Some x => PFloat x | None => PNone end;
     dyn_rank_reason :=
       match Tweet.rank_reason t with Some s => PStr s | None => PNone end |}.

(** ** Persistence of items ([DatabaseManager]) *)

(** A row of the table [tweets], without its primary key [id]. *)
Record TweetRow := mk_row {
  row_author : string;
  row_author_fullname : string;
  row_content : string;
  row_created_at : string;
  row_url : string;
  row_platform : string;
  row_likes : option Z;
  row_retweets : option Z;
  row_replies : option Z;
  row_quotes : option Z;
  row_referenced_urls : string;
  row_media_urls : string;
  row_rank_score : option Q;
  row_rank_reason : option string;
  row_collection_date : string;
  row_report_id : option string
}.

(** An integer parameter is bound as a 64-bit integer; a larger one makes
    the statement raise [OverflowError].  [None] is bound as [NULL]. *)
Definition fits_int64 (c : option Z) : bool :=
  match c with
  | Some n => (- 2 ^ 63 <=? n)%Z && (n <? 2 ^ 63)%Z
  | None => true
  end.

Definition counts_bindable (tweet : Tweet.t) : bool :=
  fits_int64 (Tweet.likes tweet) && fits_int64 (Tweet.retweets tweet)
  && fits_int64 (Tweet.replies tweet) && fits_int64 (Tweet.quotes tweet).

Section Database.

(** [datetime.isoformat] and [json.dumps] *)
Variable isoformat : datetime → string.
Variable json_dumps : list string → string.

(** The [UPDATE] of [save_tweets]: the counts, the derived fields and the
    collection date. *)
Definition updated_row (row : TweetRow) (tweet : Tweet.t) (collection_date : string)
    : TweetRow :=
  {| row_author := row_author row;
     row_author_fullname := row_author_fullname row;
     row_content := row_content row;
     row_created_at := row_created_at row;
     row_url := row_url row;
     row_platform := row_platform row;
     row_likes := Tweet.likes tweet;
     row_retweets := Tweet.retweets tweet;
     row_replies := Tweet.replies tweet;
     row_quotes := Tweet.quotes tweet;
     row_referenced_urls := row_referenced_urls row;
     row_media_urls := row_media_urls row;
     row_rank_score := Tweet.rank_score tweet;
     row_rank_reason := Tweet.rank_reason tweet;
     row_collection_date := collection_date;
     row_report_id := row_report_id row |}.

(** The [INSERT] of [save_tweets]; [report_id] is not listed and stays
    [NULL]. *)
Definition inserted_row (tweet : Tweet.t) (created_at : datetime)
    (collection_date : string) : TweetRow :=
  {| row_author := Tweet.author tweet;
     row_author_fullname := Tweet.author_fullname tweet;
     row_content := Tweet.content tweet;
     row_created_at := isoformat created_at;
     row_url := Tweet.url tweet;
     row_platform := Tweet.platform tweet;
     row_likes := Tweet.likes tweet;
     row_retweets := Tweet.retweets tweet;
     row_replies := Tweet.replies tweet;
     row_quotes := Tweet.quotes tweet;
     row_referenced_urls := json_dumps (Tweet.referenced_urls tweet);
     row_media_urls := json_dumps (Tweet.media_urls tweet);
     row_rank_score := Tweet.rank_score tweet;
     row_rank_reason := Tweet.rank_reason tweet;
     row_collection_date := collection_date;
     row_report_id := None |}.

(** One iteration of the loop of [save_tweets] on the table as the open
    transaction sees it; [None] when a statement raises: a count that
    does not fit, or an [INSERT] whose [created_at] is [NULL] (the column
    is [NOT NULL]; a [created_at] that is not a [datetime] is taken to be
    Python's [None]). *)
Definition save_one (collection_date : string) (table : gmap string TweetRow)
    (tweet : Tweet.t) : option (gmap string TweetRow) :=
  match table !! Tweet.id tweet with
  | Some row =>
      if counts_bindable tweet
      then Some (<[Tweet.id tweet := updated_row row tweet collection_date]> table)
      else None
  | None =>
      match Tweet.created_at tweet with
      | Some created_at =>
          if counts_bindable tweet
          then Some (<[Tweet.id tweet := inserted_row tweet created_at collection_date]>
                       table)
          else None
      | None => None
      end
  end.

Fixpoint save_loop (collection_date : string) (table : gmap string TweetRow)
    (tweets : list Tweet.t) : option (gmap string TweetRow) :=
  match tweets with
  | [] => Some table
  | tweet :: rest =>
      match save_one collection_date table tweet with
      | Some table' => save_loop collection_date table' rest
      | None => None
      end
  end.

(** [DatabaseManager.save_tweets]: the committed table and the returned
    flag.  The commit follows the loop, so an exception in the loop,
    which the method catches, leaves the table as it was.
    [collection_date] is [datetime.now().isoformat()]. *)
Definition save_tweets (table : gmap string TweetRow) (collection_date : string)
    (tweets : list Tweet.t) : gmap string TweetRow * bool :=
  match tweets with
  | [] => (table, false)
  | _ =>
      match save_loop collection_date table tweets with
      | Some table' => (table', true)
      | None => (table, false)
      end
  end.

End Database.

(** [DatabaseManager.is_duplicate_tweet] *)
Definition is_duplicate_tweet (table : gmap string TweetRow) (tweet_id : string) : bool :=
  bool_decide (is_Some (table !! tweet_id)).

(** The columns that [save_tweets] writes once, when the row is
    inserted. *)
Definition same_inserted_columns (a b : TweetRow) : Prop :=
  row_author a = row_author b
  ∧ row_author_fullname a = row_author_fullname b
  ∧ row_content a = row_content b
  ∧ row_created_at a = row_created_at b
  ∧ row_url a = row_url b
  ∧ row_platform a = row_platform b
  ∧ row_referenced_urls a = row_referenced_urls b
  ∧ row_media_urls a = row_media_urls b
  ∧ row_report_id a = row_report_id b.

(** *** More sample inputs *)

(** Six references to the sample store: enough items for auto-learning
    to run. *)
Definition sample_batch : list loc := [0; 1; 2; 3; 0; 1].

(** A ranker with auto-learning enabled and no configured weight. *)
Definition sample_unweighted_ranker : TweetRanker :=
  TweetRanker_init (mk_config None (Some true) None None None).

Definition sample_isoformat (d : datetime) : string :=
  decimal_of_Z (wall_us d).

Definition sample_json_dumps (l : list string) : string :=
  String.concat "," l.

(** A table with one stored item, of id "a". *)
Definition sample_table : gmap string TweetRow :=
  {[ "a" := inserted_row sample_isoformat sample_json_dumps
              (sample_tweet "a" 1 1) (mk_datetime 3600000000 None) "day 1" ]}.

(** An item without a usable creation time. *)
Definition sample_tweet_undated : Tweet.t :=
  Tweet.init "z" "openai" "OpenAI" "no date" None "https://x.com/openai/status/9".




(** ** Persistence of reports ([DatabaseManager]) *)

(** A row of the table [reports], without its primary key [id]. *)
Record ReportRow := mk_report_row {
  rep_date : string;
  rep_title : string;
  rep_analysis : string;
  rep_summary : string;
  rep_trends : string
}.

Section Reports.

(** [date.strftime(format)] and [date.isoformat()] *)
Variable strftime : string → datetime → string.
Variable isoformat : datetime → string.

(** [title or f"AI日报 - {date.strftime('%Y年%m月%d日')}"] *)
Definition title_or_default (title : option string) (date : datetime) : string :=
  match title with
  | Some t =>
      if String.eqb t "" then "AI日报 - " +:+ strftime "%Y年%m月%d日" date else t
  | None => "AI日报 - " +:+ strftime "%Y年%m月%d日" date
  end.

(** [DatabaseManager.save_report]: the committed table and the returned
    id.  [id] is the primary key of [reports], so the [INSERT] of an id
    that is stored raises; the method catches the exception and answers
    [None]. *)
Definition save_report (reports : gmap string ReportRow) (analysis : string)
    (date : datetime) (title : option string)
    : gmap string ReportRow * option string :=
  let report_id := "report_" +:+ strftime "%Y%m%d_%H%M%S" date in
  match reports !! report_id with
  | Some _ => (reports, None)
  | None =>
      (<[report_id := {| rep_date := isoformat date;
                         rep_title := title_or_default title date;
                         rep_analysis := analysis;
                         rep_summary := "";
                         rep_trends := "[]" |}]> reports,
       Some report_id)
  end.

End Reports.

(** The rows that [get_report] selects with
    [SELECT * FROM tweets WHERE report_id = ?]. *)
Definition report_tweets (table : gmap string TweetRow) (report_id : string)
    : gmap string TweetRow :=
  filter (λ entry, row_report_id entry.2 = Some report_id) table.

(** [DatabaseManager.get_report]: [None] is the empty dictionary of an
    unknown id; the rows of the key ['tweets'] are given as a map from
    their ids, without the order of the list and the decoding of the two
    JSON columns. *)
Definition get_report (reports : gmap string ReportRow) (table : gmap string TweetRow)
    (report_id : string) : option (ReportRow * gmap string TweetRow) :=
  match reports !! report_id with
  | Some report => Some (report, report_tweets table report_id)
  | None => None
  end.

(** ** The stored part of the daily run ([run_daily_collection]) *)

(** No row of the table belongs to a report. *)
Definition unlinked (table : gmap string TweetRow) : Prop :=
  map_Forall (λ (_ : string) row, row_report_id row = None) table.

(** The item can be inserted and bound: it has a creation time and its
    counts fit. *)
Definition storable (tweet : Tweet.t) : Prop :=
  is_Some (Tweet.created_at tweet) ∧ counts_bindable tweet = true.

(** * Properties *)

(** ** Deduplication *)

Section DedupFacts.
Variable db : option (string -> bool).

Lemma omap_cons {A B} (f : A → option B) x l :
  omap f (x :: l) = match f x with Some y => y :: omap f l | None => omap f l end.
Proof. reflexivity. Qed.

Lemma first_fresh_at_end p tweet rest :
  first_fresh (in_database db) (p ++ tweet :: rest) (length p)
  = negb (in_database db (Tweet.id tweet))
    && bool_decide (Tweet.id tweet ∉ (Tweet.id <$> p)).
Proof.
  unfold first_fresh.
  rewrite list_lookup_middle by reflexivity.
  rewrite take_app_length. reflexivity.
Qed.

(** The loop invariant: [seen] holds ids of the prefix [p] already
    consumed, and every id of the prefix is in [seen] or known to the
    oracle. *)
Lemma dedup_loop_positions p seen unique_tweets tweets :
  (∀ x, x ∈ seen → x ∈ (Tweet.id <$> p)) →
  (∀ x, x ∈ (Tweet.id <$> p) → x ∈ seen ∨ in_database db x = true) →
  (dedup_loop db seen unique_tweets tweets).2
  = unique_tweets
    ++ omap (λ i, if first_fresh (in_database db) (p ++ tweets) i
                  then (p ++ tweets) !! i else None)
            (seq (length p) (length tweets)).
Proof.
  revert p seen unique_tweets.
  induction tweets as [|tweet rest IH]; intros p seen unique_tweets Hsub Hcov.
  - simpl. by rewrite app_nil_r.
  - cbn [dedup_loop length seq]. rewrite omap_cons.
    rewrite first_fresh_at_end.
    rewrite list_lookup_middle by reflexivity.
    assert (Hshift : ∀ (f : list Tweet.t → nat → option Tweet.t),
               omap (f (p ++ tweet :: rest)) (seq (S (length p)) (length rest))
               = omap (f ((p ++ [tweet]) ++ rest))
                      (seq (length (p ++ [tweet])) (length rest))).
    { intros f. rewrite <- app_assoc. simpl.
      rewrite length_app. simpl. by rewrite Nat.add_1_r. }
    specialize (Hshift (λ l i, if first_fresh (in_database db) l i
                               then l !! i else None)).
    cbv beta in Hshift. rewrite Hshift. clear Hshift.
    case_bool_decide as Hseen.
    + (* seen in this batch *)
      rewrite (IH (p ++ [tweet]) seen unique_tweets).
      * apply Hsub in Hseen.
        rewrite (bool_decide_eq_false_2 (Tweet.id tweet ∉ Tweet.id <$> p))
          by (intros Hn; by apply Hn).
        by rewrite andb_false_r.
      * intros x Hx. rewrite fmap_app. apply elem_of_app.
        left. by apply Hsub.
      * intros x Hx. rewrite fmap_app in Hx.
        apply elem_of_app in Hx as [Hx|Hx]; [by apply Hcov|].
        apply list_elem_of_singleton in Hx as ->. by left.
    + destruct (in_database db (Tweet.id tweet)) eqn:Hdb.
      * (* known to the oracle *)
        rewrite (IH (p ++ [tweet]) seen unique_tweets); [done| |].
        -- intros x Hx. rewrite fmap_app. apply elem_of_app.
           left. by apply Hsub.
        -- intros x Hx. rewrite fmap_app in Hx.
           apply elem_of_app in Hx as [Hx|Hx]; [by apply Hcov|].
           apply list_elem_of_singleton in Hx as ->. by right.
      * (* kept *)
        rewrite (IH (p ++ [tweet]) ({[Tweet.id tweet]} ∪ seen)
                    (unique_tweets ++ [tweet])).
        -- assert (Hfresh : Tweet.id tweet ∉ Tweet.id <$> p).
           { intros Hin. destruct (Hcov _ Hin) as [?|?]; [done|congruence]. }
           rewrite (bool_decide_eq_true_2 _ Hfresh). simpl.
           by rewrite <- app_assoc.
        -- intros x Hx. rewrite fmap_app. apply elem_of_app.
           apply elem_of_union in Hx as [Hx|Hx].
           ++ apply elem_of_singleton in Hx as ->. right. simpl. left.
           ++ left. by apply Hsub.
        -- intros x Hx. rewrite fmap_app in Hx.
           apply elem_of_app in Hx as [Hx|Hx].
           ++ destruct (Hcov _ Hx) as [?|?]; [left|by right].
              apply elem_of_union. by right.
           ++ apply list_elem_of_singleton in Hx as ->. left.
              apply elem_of_union. left. by apply elem_of_singleton.
Qed.

Lemma deduplicate_positions self tweets :
  db_manager self = db →
  (deduplicate self tweets).2
  = select_positions (first_fresh (in_database db) tweets) tweets.
Proof.
  intros Hdb. unfold deduplicate, select_positions.
  destruct tweets as [|tweet rest]; [done|].
  rewrite Hdb.
  pose proof (dedup_loop_positions [] ∅ [] (tweet :: rest)) as H.
  destruct (dedup_loop db ∅ [] (tweet :: rest)) as [seen unique_tweets].
  simpl in H. simpl. apply H.
  - intros x Hx. by apply not_elem_of_empty in Hx.
  - intros x Hx. by apply not_elem_of_nil in Hx.
Qed.
End DedupFacts.

(** [first_fresh] in words. *)
Lemma first_fresh_true is_dup (tweets : list Tweet.t) i :
  first_fresh is_dup tweets i = true ↔
  ∃ tweet, tweets !! i = Some tweet
    ∧ is_dup (Tweet.id tweet) = false
    ∧ ∀ j earlier, j < i → tweets !! j = Some earlier →
        Tweet.id earlier ≠ Tweet.id tweet.
Proof.
  unfold first_fresh. destruct (tweets !! i) as [tweet|] eqn:Hi.
  - rewrite andb_true_iff, negb_true_iff, bool_decide_eq_true. split.
    + intros [Hdup Hfresh]. exists tweet. split_and!; [done..|].
      intros j earlier Hj Hlook Heq. apply Hfresh.
      apply list_elem_of_fmap. exists earlier. split; [done|].
      apply list_elem_of_lookup. exists j. by rewrite lookup_take_lt.
    + intros (tweet' & [= <-] & Hdup & Hfresh). split; [done|].
      intros Hin. apply list_elem_of_fmap in Hin as (earlier & Heq & Hin).
      apply list_elem_of_lookup in Hin as [j Hj].
      apply lookup_take_Some in Hj as [Hj Hlt].
      by apply (Hfresh j earlier).
  - split; [done|]. by intros (tweet & [=] & _).
Qed.

Lemma select_positions_from_sublist (keep : nat → bool) (p l : list Tweet.t) :
  omap (λ i, if keep i then (p ++ l) !! i else None) (seq (length p) (length l))
  `sublist_of` l.
Proof.
  revert p. induction l as [|x l IH]; intros p; [done|].
  cbn [length seq]. rewrite omap_cons.
  rewrite list_lookup_middle by reflexivity.
  specialize (IH (p ++ [x])). rewrite <- app_assoc in IH. simpl in IH.
  rewrite length_app in IH. simpl in IH. rewrite Nat.add_1_r in IH.
  destruct (keep (length p)).
  - by apply sublist_skip.
  - by apply sublist_cons.
Qed.

Lemma select_positions_sublist keep (tweets : list Tweet.t) :
  select_positions keep tweets `sublist_of` tweets.
Proof. apply (select_positions_from_sublist keep [] tweets). Qed.

Lemma select_positions_count (keep : nat → bool) (tweets : list Tweet.t) (positions : list nat) :
  (∀ i, i ∈ positions → i < length tweets) →
  length (omap (λ i, if keep i then tweets !! i else None) positions)
  + length (filter (λ i, keep i = false) positions)
  = length positions.
Proof.
  induction positions as [|i positions IH]; intros Hlt; [done|].
  rewrite omap_cons, filter_cons.
  assert (Hi : i < length tweets) by (apply Hlt; left).
  apply lookup_lt_is_Some_2 in Hi as [x Hx]. rewrite Hx.
  assert (IH' := IH (λ j Hj, Hlt j (list_elem_of_further _ _ _ Hj))).
  destruct (keep i); case_decide; try done; simpl; lia.
Qed.

Lemma select_positions_length keep (tweets : list Tweet.t) :
  length (select_positions keep tweets)
  = length tweets - length (filter (λ i, keep i = false) (seq 0 (length tweets))).
Proof.
  pose proof (select_positions_count keep tweets (seq 0 (length tweets))) as H.
  rewrite length_seq in H. unfold select_positions.
  rewrite <- H at 2; [lia|].
  intros i Hi. apply elem_of_seq in Hi. lia.
Qed.

Lemma dedup_loop_NoDup db seen unique_tweets tweets :
  NoDup (Tweet.id <$> unique_tweets) →
  (∀ x, x ∈ (Tweet.id <$> unique_tweets) → x ∈ seen) →
  NoDup (Tweet.id <$> (dedup_loop db seen unique_tweets tweets).2).
Proof.
  revert seen unique_tweets.
  induction tweets as [|tweet rest IH]; intros seen unique_tweets Hnd Hin; [done|].
  simpl. case_bool_decide as Hseen; [by apply IH|].
  destruct (in_database db (Tweet.id tweet)); [by apply IH|].
  apply IH.
  - rewrite fmap_app. apply NoDup_app. split_and!; [done| |apply NoDup_singleton].
    intros x Hx Hx'. apply list_elem_of_singleton in Hx' as ->. auto.
  - intros x Hx. rewrite fmap_app in Hx. apply elem_of_app in Hx as [Hx|Hx].
    + apply elem_of_union. right. auto.
    + apply list_elem_of_singleton in Hx as ->.
      apply elem_of_union. left. by apply elem_of_singleton.
Qed.

Lemma deduplicate_NoDup self tweets :
  NoDup (Tweet.id <$> (deduplicate self tweets).2).
Proof.
  unfold deduplicate. destruct tweets as [|tweet rest]; [apply NoDup_nil_2|].
  pose proof (dedup_loop_NoDup (db_manager self) ∅ [] (tweet :: rest)) as H.
  destruct (dedup_loop _ ∅ [] (tweet :: rest)) as [seen unique_tweets].
  simpl in *. apply H; [apply NoDup_nil_2|].
  intros x Hx. by apply not_elem_of_nil in Hx.
Qed.

Lemma deduplicate_not_in_database self tweets tweet :
  tweet ∈ (deduplicate self tweets).2 →
  in_database (db_manager self) (Tweet.id tweet) = false.
Proof.
  rewrite (deduplicate_positions (db_manager self)) by reflexivity.
  unfold select_positions. intros Hin.
  apply list_elem_of_omap in Hin as (i & _ & Hi).
  destruct (first_fresh _ tweets i) eqn:Hfresh; [|done].
  apply first_fresh_true in Hfresh as (tweet' & Hlook & Hdup & _).
  congruence.
Qed.

(** C3. With an oracle, [deduplicate] returns the items at exactly the
    positions that hold the first occurrence of an id the oracle does not
    report, in input order; the result is a subsequence of the input with
    pairwise distinct ids, and its length is the input length minus the
    number of positions dropped as batch or oracle duplicates. *)
Theorem deduplicate_first_occurrences (oracle : string → bool)
    (seen0 : gset string) (tweets : list Tweet.t) :
  let self := {| db_manager := Some oracle; seen_ids := seen0 |} in
  let unique_tweets := (deduplicate self tweets).2 in
  unique_tweets = select_positions (first_fresh oracle tweets) tweets
  ∧ (∀ i, first_fresh oracle tweets i = true ↔
       ∃ tweet, tweets !! i = Some tweet
         ∧ oracle (Tweet.id tweet) = false
         ∧ ∀ j earlier, j < i → tweets !! j = Some earlier →
             Tweet.id earlier ≠ Tweet.id tweet)
  ∧ unique_tweets `sublist_of` tweets
  ∧ NoDup (Tweet.id <$> unique_tweets)
  ∧ length unique_tweets = length tweets - duplicates_removed oracle tweets.
Proof.
  intros self unique_tweets.
  assert (Heq : unique_tweets = select_positions (first_fresh oracle tweets) tweets).
  { unfold unique_tweets.
    by rewrite (deduplicate_positions (Some oracle)). }
  split_and!.
  - exact Heq.
  - intros i. apply first_fresh_true.
  - rewrite Heq. apply select_positions_sublist.
  - apply deduplicate_NoDup.
  - rewrite Heq. apply select_positions_length.
Qed.

(** A batch with pairwise distinct ids, none of them seen or known to the
    oracle, passes through the loop unchanged. *)
Lemma dedup_loop_keeps_all db seen unique_tweets tweets :
  NoDup (Tweet.id <$> tweets) →
  (∀ tweet, tweet ∈ tweets → in_database db (Tweet.id tweet) = false) →
  (∀ tweet, tweet ∈ tweets → Tweet.id tweet ∉ seen) →
  (dedup_loop db seen unique_tweets tweets).2 = unique_tweets ++ tweets.
Proof.
  revert seen unique_tweets.
  induction tweets as [|tweet rest IH]; intros seen unique_tweets Hnd Hdb Hseen.
  - simpl. by rewrite app_nil_r.
  - simpl. rewrite fmap_cons in Hnd. apply NoDup_cons in Hnd as [Hhd Hnd].
    rewrite bool_decide_eq_false_2 by (apply Hseen; left).
    rewrite (Hdb tweet) by left.
    rewrite IH.
    + by rewrite <- app_assoc.
    + done.
    + intros t Ht. apply Hdb. by right.
    + intros t Ht Hin. apply elem_of_union in Hin as [Hin|Hin].
      * apply elem_of_singleton in Hin. apply Hhd. rewrite <- Hin.
        apply list_elem_of_fmap. by exists t.
      * apply (Hseen t); [by right|done].
Qed.

(** C4. Deduplication is idempotent: running [deduplicate] on its own
    output, with the same oracle, returns that output. *)
Theorem deduplicate_idempotent (self : TweetDeduplicator) (tweets : list Tweet.t) :
  let '(self', unique_tweets) := deduplicate self tweets in
  db_manager self' = db_manager self
  ∧ (deduplicate self' unique_tweets).2 = unique_tweets
  ∧ (deduplicate self unique_tweets).2 = unique_tweets.
Proof.
  pose proof (deduplicate_NoDup self tweets) as Hnd.
  pose proof (deduplicate_not_in_database self tweets) as Hdb.
  destruct (deduplicate self tweets) as [self' unique_tweets] eqn:Hrun.
  simpl in Hnd, Hdb.
  assert (Hsame : db_manager self' = db_manager self).
  { unfold deduplicate in Hrun. destruct tweets; [by inversion Hrun|].
    destruct (dedup_loop _ _ _ _). by inversion Hrun. }
  assert (Hagain : ∀ d, db_manager d = db_manager self →
            (deduplicate d unique_tweets).2 = unique_tweets).
  { intros d Hd. unfold deduplicate.
    destruct unique_tweets as [|tweet rest] eqn:Hout; [done|].
    pose proof (dedup_loop_keeps_all (db_manager d) ∅ [] (tweet :: rest)) as H.
    destruct (dedup_loop _ ∅ [] (tweet :: rest)) as [seen again].
    simpl in H. simpl. apply H.
    - exact Hnd.
    - intros t Ht. rewrite Hd. by apply Hdb.
    - intros t _. apply not_elem_of_empty. }
  split_and!; [done|by apply Hagain..].
Qed.

(** C5. Without a duplicate oracle, [deduplicate] is a total function that
    returns the first occurrence of every id of the input, in input order,
    and drops nothing else. *)
Theorem deduplicate_without_oracle (seen0 : gset string) (tweets : list Tweet.t) :
  let self := {| db_manager := None; seen_ids := seen0 |} in
  let unique_tweets := (deduplicate self tweets).2 in
  unique_tweets = select_positions (first_fresh (λ _, false) tweets) tweets
  ∧ (∀ i, first_fresh (λ _, false) tweets i = true ↔
       ∃ tweet, tweets !! i = Some tweet
         ∧ ∀ j earlier, j < i → tweets !! j = Some earlier →
             Tweet.id earlier ≠ Tweet.id tweet)
  ∧ unique_tweets `sublist_of` tweets
  ∧ NoDup (Tweet.id <$> unique_tweets)
  ∧ (∀ tweet, tweet ∈ tweets → Tweet.id tweet ∈ (Tweet.id <$> unique_tweets)).
Proof.
  intros self unique_tweets.
  assert (Heq : unique_tweets
                = select_positions (first_fresh (λ _, false) tweets) tweets).
  { unfold unique_tweets. by rewrite (deduplicate_positions None). }
  assert (Hwords : ∀ i, first_fresh (λ _, false) tweets i = true ↔
       ∃ tweet, tweets !! i = Some tweet
         ∧ ∀ j earlier, j < i → tweets !! j = Some earlier →
             Tweet.id earlier ≠ Tweet.id tweet).
  { intros i. rewrite first_fresh_true. split.
    - intros (tweet & Hi & _ & Hfirst). by exists tweet.
    - intros (tweet & Hi & Hfirst). by exists tweet. }
  split_and!.
  - exact Heq.
  - exact Hwords.
  - rewrite Heq. apply select_positions_sublist.
  - apply deduplicate_NoDup.
  - (* every id has a first occurrence, and that one is kept *)
    intros tweet Hin. apply list_elem_of_lookup in Hin as [i Hi].
    revert tweet Hi. induction i as [i IH] using lt_wf_ind. intros tweet Hi.
    destruct (first_fresh (λ _, false) tweets i) eqn:Hfresh.
    + apply list_elem_of_fmap. exists tweet. split; [done|].
      rewrite Heq. unfold select_positions. apply list_elem_of_omap.
      exists i. rewrite Hfresh. split; [|done].
      apply elem_of_seq. apply lookup_lt_Some in Hi. lia.
    + unfold first_fresh in Hfresh. rewrite Hi in Hfresh. simpl in Hfresh.
      apply bool_decide_eq_false in Hfresh.
      apply dec_stable in Hfresh.
      apply list_elem_of_fmap in Hfresh as (earlier & Heqid & Hearlier).
      apply list_elem_of_lookup in Hearlier as [j Hj].
      apply lookup_take_Some in Hj as [Hj Hlt].
      rewrite Heqid. by apply (IH j).
Qed.

(** The two scenarios of the specification: a batch with two items of id
    "abc" keeps the first one; an id known to the oracle is removed even
    though it occurs once in the batch. *)
Example deduplicate_shared_id :
  (deduplicate {| db_manager := None; seen_ids := ∅ |}
     [Tweet.init "abc" "a" "A" "first" None "u1";
      Tweet.init "abc" "a" "A" "second" None "u2"]).2
  = [Tweet.init "abc" "a" "A" "first" None "u1"].
Proof. vm_compute. reflexivity. Qed.

Example deduplicate_known_to_oracle :
  (deduplicate {| db_manager := Some (String.eqb "xyz"); seen_ids := ∅ |}
     [Tweet.init "abc" "a" "A" "first" None "u1";
      Tweet.init "xyz" "a" "A" "second" None "u2"]).2
  = [Tweet.init "abc" "a" "A" "first" None "u1"].
Proof. vm_compute. reflexivity. Qed.

(** ** Strings *)

#[local] Arguments String.append !s1 s2 : simpl nomatch.















(** ** Rounding *)

Local Open Scope Q_scope.



Local Close Scope Q_scope.

(** ** The scoring function *)

Lemma bind_Ok {A B} (m : result A) (f : A → result B) b :
  m ≫= f = Ok b → ∃ a, m = Ok a ∧ f a = Ok b.
Proof. destruct m as [a|e]; [by exists a|discriminate]. Qed.

Lemma score_components_order (e r i k : Q) :
  dict_setitem "keywords" k
    (dict_setitem "influence" i
      (dict_setitem "recency" r (dict_setitem "engagement" e [])))
  = [("engagement", e); ("recency", r); ("influence", i); ("keywords", k)].
Proof. reflexivity. Qed.



Lemma length_divisor_nonzero {A} (x : A) (l : list A) :
  Qeq_bool (inject_Z (Z.of_nat (length (x :: l)))) 0 = false.
Proof.
  destruct (Qeq_bool _ _) eqn:Heq; [|done].
  apply Qeq_bool_eq in Heq. unfold Qeq in Heq. simpl in Heq. lia.
Qed.



Section ScoringFacts.

Variable math_exp : Q → Q.














End ScoringFacts.

(** *** The scoring function on the sample inputs *)


Example sample_reason :
  ∃ score,
    calculate_score exp_sample sample_learning_ranker sample_now
      (sample_tweet "a" 100 10)
    = Ok (score,
          "排名因素: engagement: 34.00, recency: 0.50, influence: 0.60, keywords: 0.35")
    ∧ (score == 35445025 # 1000000)%Q.
Proof. eexists. split; [vm_compute; reflexivity|reflexivity]. Qed.




(** ** Auto-learning *)

Local Open Scope Q_scope.

Lemma sum_floats_acc (xs : list Q) (acc : Q) :
  fold_left Qplus xs acc == acc + sum_floats xs.
Proof.
  unfold sum_floats. revert acc.
  induction xs as [|x xs IH]; intros acc; simpl; [ring|].
  rewrite (IH (acc + x)), (IH (0 + x)). ring.
Qed.

Lemma sum_floats_cons (x : Q) (xs : list Q) :
  sum_floats (x :: xs) == x + sum_floats xs.
Proof.
  unfold sum_floats at 1. simpl. rewrite sum_floats_acc. ring.
Qed.



Lemma float_div_nonzero (a b : Q) :
  ¬ b == 0 → float_div a b = Ok (a / b).
Proof.
  intros Hb. unfold float_div.
  destruct (Qeq_bool b 0) eqn:Heq; [|done].
  by apply Qeq_bool_eq in Heq.
Qed.

(** The division loop visits every key once and never raises for a
    divisor other than zero. *)
Lemma divide_weights_fmap (total : Q) (w : gmap string Q) :
  ¬ total == 0 →
  divide_weights total w = Ok ((λ v, v / total) <$> w).
Proof.
  intros Htotal. unfold divide_weights.
  set (g := λ v : Q, v / total).
  assert (Hgen : ∀ m : gmap string Q, m ⊆ w →
            map_fold
              (λ key (_ : Q) acc,
                 acc ≫= λ w' : gmap string Q,
                   match w' !! key with
                   | Some v => float_div v total ≫= λ v', Ok (<[key:=v']> w')
                   | None => Raise KeyError
                   end)
              (Ok w) m
            = Ok ((g <$> m) ∪ w)).
  { intros m. apply (map_fold_weak_ind (λ r m, m ⊆ w → r = Ok ((g <$> m) ∪ w))).
    - intros _. by rewrite fmap_empty, (left_id_L ∅ (∪)).
    - intros i x m' r Hnone IH Hsub.
      assert (Hsub' : m' ⊆ w).
      { etrans; [|exact Hsub]. by apply insert_subseteq. }
      rewrite (IH Hsub'). simpl.
      assert (Hi : w !! i = Some x).
      { eapply lookup_weaken; [|exact Hsub]. apply lookup_insert_eq. }
      rewrite lookup_union_r by (by rewrite lookup_fmap, Hnone).
      rewrite Hi, (float_div_nonzero x total Htotal). simpl.
      by rewrite fmap_insert, insert_union_l. }
  rewrite (Hgen w) by done. f_equal.
  apply map_eq. intros key. rewrite lookup_union, lookup_fmap.
  by destruct (w !! key).
Qed.

Lemma normalize_weights_positive (w : gmap string Q) :
  0 < sum_weights w →
  normalize_weights w = Ok ((λ v, v / sum_weights w) <$> w).
Proof.
  intros Hpos. unfold normalize_weights.
  destruct (Qlt_le_dec 0 (sum_weights w)) as [_|Hle]; [|lra].
  apply divide_weights_fmap. lra.
Qed.

Lemma normalize_weights_not_positive (w : gmap string Q) :
  sum_weights w <= 0 → normalize_weights w = Ok w.
Proof.
  intros Hle. unfold normalize_weights.
  destruct (Qlt_le_dec 0 (sum_weights w)) as [Hpos|_]; [lra|done].
Qed.

Lemma incremented_weights_nonempty self top_tweets w :
  incremented_weights self top_tweets = Ok w → top_tweets ≠ [].
Proof. intros Hinc ->. discriminate Hinc. Qed.




(** C7. When the weights after the increments sum to zero, the adjustment
    returns normally with exactly those weights: the division loop is not
    entered and no [ZeroDivisionError] is raised. *)
Theorem adjust_weights_zero_total self top_tweets w :
  incremented_weights self top_tweets = Ok w →
  sum_weights w == 0 →
  normalize_weights w = Ok w
  ∧ adjust_weights self top_tweets = Ok (with_weights self w).
Proof.
  intros Hinc Hzero.
  pose proof (incremented_weights_nonempty _ _ _ Hinc) as Hne.
  assert (Hnorm : normalize_weights w = Ok w).
  { apply normalize_weights_not_positive. lra. }
  split; [exact Hnorm|].
  unfold adjust_weights. destruct top_tweets as [|tweet rest]; [done|].
  rewrite Hinc. simpl. by rewrite Hnorm.
Qed.

Local Close Scope Q_scope.

(** *** Auto-learning on the sample inputs *)


Example sample_adjusted_weights :
  ∃ self',
    adjust_weights sample_learning_ranker sample_top_tweets = Ok self'
    ∧ (∃ v, weights self' !! "likes" = Some v ∧ (v == 31 # 281)%Q)
    ∧ (∃ v, weights self' !! "recency" = Some v ∧ (v == 50 # 281)%Q).
Proof.
  eexists. split; [vm_compute; reflexivity|].
  split; eexists; (split; [vm_compute; reflexivity|vm_compute; reflexivity]).
Qed.

Lemma adjust_weights_zero_total_witness :
  adjust_weights sample_zero_ranker sample_quiet_tweets
  = Ok (with_weights sample_zero_ranker (weights sample_zero_ranker)).
Proof.
  assert (Hinc : incremented_weights sample_zero_ranker sample_quiet_tweets
                 = Ok (weights sample_zero_ranker))
    by (vm_compute; reflexivity).
  assert (Hzero : (sum_weights (weights sample_zero_ranker) == 0)%Q)
    by (vm_compute; reflexivity).
  exact (proj2 (adjust_weights_zero_total sample_zero_ranker
                  sample_quiet_tweets (weights sample_zero_ranker) Hinc Hzero)).
Defined.

(** ** Sorting *)

Section SortedDesc.

Context {A : Type}.
Variable key : A → Q.

Lemma insert_desc_perm x l : insert_desc key x l ≡ₚ x :: l.
Proof.
  induction l as [|y l IH]; simpl; [done|].
  destruct (Qle_bool (key y) (key x)); [done|].
  rewrite IH. apply Permutation_swap.
Qed.

Lemma sorted_desc_perm l : sorted_desc key l ≡ₚ l.
Proof.
  induction l as [|x l IH]; simpl; [done|].
  rewrite insert_desc_perm. by rewrite IH.
Qed.

Lemma insert_desc_sorted x l :
  StronglySorted (desc key) l → StronglySorted (desc key) (insert_desc key x l).
Proof.
  induction 1 as [|y l Hsorted IH Hall]; simpl.
  - constructor; [constructor|constructor].
  - destruct (Qle_bool (key y) (key x)) eqn:Hle.
    + apply Qle_bool_iff in Hle.
      constructor; [by constructor|].
      constructor; [exact Hle|].
      eapply Forall_impl; [exact Hall|].
      intros z Hz. unfold desc in *. lra.
    + assert (Hlt : (key x < key y)%Q).
      { apply Qnot_le_lt. intros H. apply Qle_bool_iff in H. congruence. }
      constructor; [exact IH|].
      eapply Permutation_Forall; [symmetry; apply insert_desc_perm|].
      constructor; [unfold desc; lra|exact Hall].
Qed.

Lemma sorted_desc_sorted l : StronglySorted (desc key) (sorted_desc key l).
Proof.
  induction l as [|x l IH]; simpl; [constructor|].
  by apply insert_desc_sorted.
Qed.

(** Inserting an item does not disturb the order of the items of any one
    key: the new item lands in front of those that share its key. *)
Lemma insert_desc_stable k x l :
  with_key key k (insert_desc key x l) = with_key key k (x :: l).
Proof.
  unfold with_key. induction l as [|y l IH]; [done|].
  cbn [insert_desc].
  destruct (Qle_bool (key y) (key x)) eqn:Hle; [done|].
  assert (Hlt : (key x < key y)%Q).
  { apply Qnot_le_lt. intros H. apply Qle_bool_iff in H. congruence. }
  cbn [List.filter] in *. rewrite IH.
  destruct (Qeq_bool (key x) k) eqn:Hx; [|done].
  destruct (Qeq_bool (key y) k) eqn:Hy; [|done].
  apply Qeq_bool_eq in Hx, Hy. lra.
Qed.

Lemma sorted_desc_stable k l :
  with_key key k (sorted_desc key l) = with_key key k l.
Proof.
  induction l as [|x l IH]; [done|].
  cbn [sorted_desc foldr]. rewrite insert_desc_stable.
  unfold with_key in *. cbn [List.filter].
  fold (sorted_desc key l). by rewrite IH.
Qed.

(** A stable descending sort has one possible result: two lists in
    descending order that list the items of every key in the same order
    are equal.  So any stable sort, Python's included, returns the list
    that [sorted_desc] returns. *)
Lemma stable_sort_unique l1 l2 :
  StronglySorted (desc key) l1 → StronglySorted (desc key) l2 →
  (∀ k, with_key key k l1 = with_key key k l2) →
  l1 = l2.
Proof.
  intros Hs1. revert l2.
  induction Hs1 as [|x l1 Hs1 IH Hall1]; intros l2 Hs2 Hsame.
  - destruct l2 as [|y l2]; [done|].
    specialize (Hsame (key y)). unfold with_key in Hsame. simpl in Hsame.
    rewrite (proj2 (Qeq_bool_iff _ _)) in Hsame by reflexivity. discriminate.
  - destruct Hs2 as [|y l2 Hs2 Hall2].
    { specialize (Hsame (key x)). unfold with_key in Hsame. simpl in Hsame.
      rewrite (proj2 (Qeq_bool_iff _ _)) in Hsame by reflexivity. discriminate. }
    assert (Hin : ∀ (l l' : list A) z, with_key key (key z) (z :: l) = with_key key (key z) l' →
              ∃ z', In z' l' ∧ (key z' == key z)%Q).
    { intros l l' z Heq. unfold with_key in Heq. simpl in Heq.
      rewrite (proj2 (Qeq_bool_iff _ _)) in Heq by reflexivity.
      assert (Hz : In z (List.filter (λ a, Qeq_bool (key a) (key z)) l')).
      { rewrite <- Heq. by left. }
      apply filter_In in Hz as [Hz Hk]. exists z. split; [done|reflexivity]. }
    assert (Hxy : (key x <= key y)%Q).
    { destruct (Hin l1 (y :: l2) x (Hsame (key x))) as (z & [<-|Hz] & Hk).
      - lra.
      - rewrite Forall_forall in Hall2.
        specialize (Hall2 z (proj2 (list_elem_of_In _ _) Hz)).
        unfold desc in Hall2. lra. }
    assert (Hyx : (key y <= key x)%Q).
    { destruct (Hin l2 (x :: l1) y (eq_sym (Hsame (key y)))) as (z & [<-|Hz] & Hk).
      - lra.
      - rewrite Forall_forall in Hall1.
        specialize (Hall1 z (proj2 (list_elem_of_In _ _) Hz)).
        unfold desc in Hall1. lra. }
    assert (Heq : (key y == key x)%Q) by lra.
    assert (x = y) as <-.
    { specialize (Hsame (key x)). unfold with_key in Hsame. simpl in Hsame.
      rewrite (proj2 (Qeq_bool_iff (key x) _)) in Hsame by reflexivity.
      rewrite (proj2 (Qeq_bool_iff (key y) _)) in Hsame by exact Heq.
      by injection Hsame. }
    f_equal. apply IH; [done|].
    intros k. specialize (Hsame k). unfold with_key in *. simpl in Hsame.
    destruct (Qeq_bool (key x) k); [by injection Hsame|done].
Qed.

End SortedDesc.

(** ** [rank] *)

Lemma same_collected_fields_refl t : same_collected_fields t t.
Proof. by repeat split. Qed.

Lemma same_collected_fields_trans a b c :
  same_collected_fields a b → same_collected_fields b c →
  same_collected_fields a c.
Proof.
  unfold same_collected_fields. intros Hab Hbc.
  destruct_and!. split_and!; congruence.
Qed.

Lemma set_rank_same_collected_fields t score reason :
  same_collected_fields t (set_rank t score reason).
Proof. by repeat split. Qed.

Lemma sort_key_score_or_zero heap r :
  (sort_key heap r == default 0%Q (Tweet.rank_score (heap r)))%Q.
Proof.
  unfold sort_key, score_or_zero.
  destruct (Tweet.rank_score (heap r)) as [score|]; simpl; [|reflexivity].
  destruct (Qeq_bool score 0) eqn:Hzero; [|reflexivity].
  apply Qeq_bool_eq in Hzero. by rewrite Hzero.
Qed.

Section RankFacts.

Variable math_exp : Q → Q.

(** The scoring loop writes the two derived fields of the items it is
    given and nothing else. *)
Lemma score_tweets_frame self clock n heap tweets heap' :
  score_tweets math_exp self clock n heap tweets = Ok heap' →
  (∀ r, same_collected_fields (heap r) (heap' r))
  ∧ (∀ r, r ∉ tweets → heap' r = heap r)
  ∧ (∀ r, r ∈ tweets →
       ∃ score reason, Tweet.rank_score (heap' r) = Some score
                       ∧ Tweet.rank_reason (heap' r) = Some reason).
Proof.
  revert n heap. induction tweets as [|r0 rest IH]; intros n heap Hrun.
  - injection Hrun as <-. split_and!.
    + intros r. apply same_collected_fields_refl.
    + done.
    + intros r Hr. by apply not_elem_of_nil in Hr.
  - cbn [score_tweets] in Hrun.
    apply bind_Ok in Hrun as ([score reason] & Hscore & Hrest).
    apply IH in Hrest as (Hsame & Hout & Hin).
    assert (Hstep : ∀ r, same_collected_fields
                (heap r) (store_set heap r0 (set_rank (heap r0) score reason) r)).
    { intros r. unfold store_set. case_decide as Heq.
      - subst r. apply set_rank_same_collected_fields.
      - apply same_collected_fields_refl. }
    split_and!.
    + intros r. eapply same_collected_fields_trans; [apply Hstep|apply Hsame].
    + intros r Hr. rewrite Hout by (intros H; apply Hr; by right).
      unfold store_set. case_decide as Heq; [|done].
      subst r. exfalso. apply Hr. by left.
    + intros r Hr. destruct (decide (r ∈ rest)) as [Hrest|Hrest]; [by apply Hin|].
      apply elem_of_cons in Hr as [->|Hr]; [|done].
      rewrite (Hout r0 Hrest). unfold store_set.
      rewrite decide_True by done. by exists score, reason.
Qed.

Lemma rank_inv self clock heap tweets self' heap' ranked :
  rank math_exp self clock heap tweets = Ok (self', heap', ranked) →
  score_tweets math_exp self clock 0 heap tweets = Ok heap'
  ∧ ranked = sorted_desc (sort_key heap') tweets.
Proof.
  unfold rank. intros Hrun.
  apply bind_Ok in Hrun as (heap1 & Hscore & Hrun).
  apply bind_Ok in Hrun as (self1 & _ & Hrun).
  injection Hrun as <- <- <-. done.
Qed.

(** Auto-learning runs on the ten best items, and only for a batch of
    more than five items with [auto_learning] enabled. *)
Lemma rank_auto_learning self clock heap tweets self' heap' ranked :
  rank math_exp self clock heap tweets = Ok (self', heap', ranked) →
  if auto_learning self && (5 <? length tweets)%nat
  then adjust_weights self (heap' <$> take 10 ranked) = Ok self'
       ∧ take 10 ranked ≠ []
  else self' = self.
Proof.
  unfold rank. intros Hrun.
  apply bind_Ok in Hrun as (heap1 & Hscore & Hrun).
  apply bind_Ok in Hrun as (self1 & Hadjust & Hrun).
  injection Hrun as <- <- <-.
  destruct (auto_learning self && (5 <? length tweets)%nat) eqn:Hcond.
  - split; [done|].
    apply andb_true_iff in Hcond as [_ Hlen]. apply Nat.ltb_lt in Hlen.
    intros Hnil. apply (f_equal length) in Hnil.
    rewrite length_take in Hnil.
    pose proof (Permutation_length (sorted_desc_perm (sort_key heap1) tweets)).
    change (length []) with 0%nat in Hnil. lia.
  - by injection Hadjust.
Qed.

(** C9. The list returned by [rank] is the input sorted in descending
    order of the effective score, which is the score of the item, or 0
    when the score is unset; the sort is stable: the items of any one
    effective score stand in the output in the order they have in the
    input.  The same holds of the sort of line 56 on any store, whether
    or not its items carry a score. *)
Theorem rank_sorted_stable self clock heap tweets self' heap' ranked :
  rank math_exp self clock heap tweets = Ok (self', heap', ranked) →
  ranked = sorted_desc (sort_key heap') tweets
  ∧ (∀ r, (sort_key heap' r == default 0%Q (Tweet.rank_score (heap' r)))%Q)
  ∧ StronglySorted (desc (sort_key heap')) ranked
  ∧ (∀ k, with_key (sort_key heap') k ranked = with_key (sort_key heap') k tweets)
  ∧ (∀ (h : Store) (rs : list loc),
       (∀ r, (sort_key h r == default 0%Q (Tweet.rank_score (h r)))%Q)
       ∧ sorted_desc (sort_key h) rs ≡ₚ rs
       ∧ StronglySorted (desc (sort_key h)) (sorted_desc (sort_key h) rs)
       ∧ ∀ k, with_key (sort_key h) k (sorted_desc (sort_key h) rs)
              = with_key (sort_key h) k rs).
Proof.
  intros Hrun. apply rank_inv in Hrun as [_ ->].
  split_and!.
  - done.
  - intros r. apply sort_key_score_or_zero.
  - apply sorted_desc_sorted.
  - intros k. apply sorted_desc_stable.
  - intros h rs. split_and!.
    + intros r. apply sort_key_score_or_zero.
    + apply sorted_desc_perm.
    + apply sorted_desc_sorted.
    + intros k. apply sorted_desc_stable.
Qed.

(** C10. The list returned by [rank] is a permutation of the input list
    of items; every item of the store keeps all of its collected fields,
    the items of the list have their score and reason set, and the items
    outside the list are untouched. *)
Theorem rank_permutes_and_frames self clock heap tweets self' heap' ranked :
  rank math_exp self clock heap tweets = Ok (self', heap', ranked) →
  ranked ≡ₚ tweets
  ∧ (∀ r, same_collected_fields (heap r) (heap' r))
  ∧ (∀ r, r ∉ tweets → heap' r = heap r)
  ∧ (∀ r, r ∈ tweets →
       ∃ score reason, Tweet.rank_score (heap' r) = Some score
                       ∧ Tweet.rank_reason (heap' r) = Some reason).
Proof.
  intros Hrun. apply rank_inv in Hrun as [Hscore ->].
  apply score_tweets_frame in Hscore as (Hsame & Hout & Hin).
  split_and!; [apply sorted_desc_perm|done..].
Qed.

End RankFacts.

(** *** [rank] on the sample store *)

(** The scenario of the specification: three items with likes 100, 10, 5
    and retweets 10, 5, 1, scored at one instant, keep their order; a
    fourth item with the counts of the second ties with it, and the two
    stand in the output in their input order. *)
Example sample_ranking :
  match rank exp_sample sample_ranker (λ _, 7200000000%Z) sample_heap [0; 1; 2; 3] with
  | Ok (_, _, ranked) => ranked
  | Raise _ => []
  end = [0; 1; 3; 2]
  ∧ match rank exp_sample sample_ranker (λ _, 7200000000%Z) sample_heap [3; 2; 1; 0] with
    | Ok (_, _, ranked) => ranked
    | Raise _ => []
    end = [0; 3; 1; 2].
Proof. split; vm_compute; reflexivity. Qed.

(** With a clock that advances between two readings the same two items no
    longer tie: the one scored first is younger at its reading and ranks
    first. *)
Example sample_ranking_running_clock :
  match rank exp_sample sample_ranker sample_clock sample_heap [1; 3] with
  | Ok (_, heap', ranked) =>
      (ranked, Qle_bool (sort_key heap' 1) (sort_key heap' 3))
  | Raise _ => ([], true)
  end = ([1; 3], false).
Proof. vm_compute. reflexivity. Qed.

Lemma rank_sorted_stable_witness :
  ∃ self' heap' ranked,
    rank exp_sample sample_ranker sample_clock sample_heap [3; 2; 1; 0]
    = Ok (self', heap', ranked)
    ∧ StronglySorted (desc (sort_key heap')) ranked
    ∧ ∀ k, with_key (sort_key heap') k ranked
           = with_key (sort_key heap') k [3; 2; 1; 0].
Proof.
  destruct (rank exp_sample sample_ranker sample_clock sample_heap [3; 2; 1; 0])
    as [[[self' heap'] ranked]|e] eqn:Hrun.
  - destruct (rank_sorted_stable exp_sample sample_ranker sample_clock
                sample_heap [3; 2; 1; 0] self' heap' ranked Hrun)
      as (_ & _ & Hsorted & Hstable & _).
    exists self', heap', ranked.
    split; [reflexivity|]. split; [exact Hsorted|exact Hstable].
  - vm_compute in Hrun. discriminate Hrun.
Defined.

Lemma rank_permutes_and_frames_witness :
  ∃ self' heap' ranked,
    rank exp_sample sample_ranker sample_clock sample_heap [3; 2; 1; 0]
    = Ok (self', heap', ranked)
    ∧ ranked ≡ₚ [3; 2; 1; 0]
    ∧ ∀ r, same_collected_fields (sample_heap r) (heap' r).
Proof.
  destruct (rank exp_sample sample_ranker sample_clock sample_heap [3; 2; 1; 0])
    as [[[self' heap'] ranked]|e] eqn:Hrun.
  - destruct (rank_permutes_and_frames exp_sample sample_ranker sample_clock
                sample_heap [3; 2; 1; 0] self' heap' ranked Hrun)
      as (Hperm & Hsame & _ & _).
    exists self', heap', ranked.
    split; [reflexivity|]. split; [exact Hperm|exact Hsame].
  - vm_compute in Hrun. discriminate Hrun.
Defined.

(** * Further properties of the modelled code *)

(** ** [filter_updates] *)

Lemma filter_updates_loop_filter known_ids updates tweets :
  filter_updates_loop known_ids updates tweets
  = updates ++ filter (λ tweet, Tweet.id tweet ∈ known_ids) tweets.
Proof.
  revert updates. induction tweets as [|tweet rest IH]; intros updates.
  - simpl. by rewrite app_nil_r.
  - cbn [filter_updates_loop]. rewrite filter_cons.
    case_bool_decide as Hin.
    + rewrite decide_True by done. rewrite IH. by rewrite <- app_assoc.
    + rewrite decide_False by done. apply IH.
Qed.

(** [filter_updates] as a filter. *)
Lemma filter_updates_filter (tweets : list Tweet.t) (known_ids : gset string) :
  filter_updates tweets known_ids
  = filter (λ tweet, Tweet.id tweet ∈ known_ids) tweets.
Proof. unfold filter_updates. by rewrite filter_updates_loop_filter. Qed.

(** [filter_updates] returns, in input order, exactly the items whose id
    is in [known_ids]: it is a subsequence of the input, an input item is
    returned if and only if its id is known, and no known id is lost. *)
Theorem filter_updates_known_items (tweets : list Tweet.t) (known_ids : gset string) :
  filter_updates tweets known_ids
  = filter (λ tweet, Tweet.id tweet ∈ known_ids) tweets
  ∧ filter_updates tweets known_ids `sublist_of` tweets
  ∧ (∀ tweet, tweet ∈ filter_updates tweets known_ids
              ↔ tweet ∈ tweets ∧ Tweet.id tweet ∈ known_ids)
  ∧ (known_ids = ∅ → filter_updates tweets known_ids = []).
Proof.
  assert (Heq : filter_updates tweets known_ids
                = filter (λ tweet, Tweet.id tweet ∈ known_ids) tweets).
  { apply filter_updates_filter. }
  split_and!.
  - exact Heq.
  - rewrite Heq. apply sublist_filter.
  - intros tweet. rewrite Heq, list_elem_of_filter. tauto.
  - intros ->. rewrite Heq. clear Heq.
    induction tweets as [|tweet rest IH]; [done|].
    rewrite filter_cons_False by apply not_elem_of_empty. exact IH.
Qed.

(** Filtering twice is filtering once by the ids known to both sets; in
    particular a second pass with the same set changes nothing. *)
Theorem filter_updates_twice (tweets : list Tweet.t) (known1 known2 : gset string) :
  filter_updates (filter_updates tweets known1) known2
  = filter_updates tweets (known1 ∩ known2)
  ∧ filter_updates (filter_updates tweets known1) known1
    = filter_updates tweets known1.
Proof.
  assert (Hgen : ∀ k1 k2 : gset string,
            filter_updates (filter_updates tweets k1) k2
            = filter_updates tweets (k1 ∩ k2)).
  { intros k1 k2. unfold filter_updates.
    rewrite !filter_updates_loop_filter. simpl.
    induction tweets as [|tweet rest IH]; [done|].
    rewrite !filter_cons.
    destruct (decide (Tweet.id tweet ∈ k1)) as [H1|H1].
    - rewrite filter_cons.
      destruct (decide (Tweet.id tweet ∈ k2)) as [H2|H2].
      + rewrite decide_True by (by apply elem_of_intersection). by rewrite IH.
      + rewrite decide_False by (rewrite elem_of_intersection; tauto). exact IH.
    - rewrite decide_False by (rewrite elem_of_intersection; tauto). exact IH. }
  split; [apply Hgen|].
  rewrite Hgen. by rewrite (idemp_L (∩)).
Qed.

(** A batch with pairwise distinct ids, none of them seen: the loop of
    [deduplicate] keeps the items the oracle does not know. *)
Lemma dedup_loop_distinct_ids db seen unique_tweets tweets :
  NoDup (Tweet.id <$> tweets) →
  (∀ tweet, tweet ∈ tweets → Tweet.id tweet ∉ seen) →
  (dedup_loop db seen unique_tweets tweets).2
  = unique_tweets
    ++ filter (λ tweet, in_database db (Tweet.id tweet) = false) tweets.
Proof.
  revert seen unique_tweets.
  induction tweets as [|tweet rest IH]; intros seen unique_tweets Hnd Hseen.
  - simpl. by rewrite app_nil_r.
  - cbn [dedup_loop]. rewrite fmap_cons in Hnd.
    apply NoDup_cons in Hnd as [Hhd Hnd].
    rewrite bool_decide_eq_false_2 by (apply Hseen; left).
    rewrite filter_cons.
    destruct (in_database db (Tweet.id tweet)) eqn:Hdb.
    + rewrite decide_False by done. apply IH; [done|].
      intros t Ht. apply Hseen. by right.
    + rewrite decide_True by done. rewrite IH; [by rewrite <- app_assoc|done|].
      intros t Ht Hin. apply elem_of_union in Hin as [Hin|Hin].
      * apply elem_of_singleton in Hin. apply Hhd. rewrite <- Hin.
        apply list_elem_of_fmap. by exists t.
      * apply (Hseen t); [by right|done].
Qed.

(** [deduplicate] and [filter_updates] are complementary when the oracle
    answers by membership in [known_ids]: no item is returned by both,
    and for a batch with pairwise distinct ids the two results together
    are the batch, each item in one of them. *)
Theorem deduplicate_filter_updates_split (known_ids seen0 : gset string)
    (tweets : list Tweet.t) :
  let self := {| db_manager := Some (λ tweet_id, bool_decide (tweet_id ∈ known_ids));
                 seen_ids := seen0 |} in
  (∀ tweet, tweet ∈ (deduplicate self tweets).2 →
            tweet ∉ filter_updates tweets known_ids)
  ∧ (NoDup (Tweet.id <$> tweets) →
     (deduplicate self tweets).2
     = filter (λ tweet, Tweet.id tweet ∉ known_ids) tweets
     ∧ (deduplicate self tweets).2 ++ filter_updates tweets known_ids ≡ₚ tweets).
Proof.
  intros self. split.
  - intros tweet Hin Hup.
    apply deduplicate_not_in_database in Hin. simpl in Hin.
    apply bool_decide_eq_false in Hin.
    rewrite filter_updates_filter, list_elem_of_filter in Hup. tauto.
  - intros Hnd.
    assert (Hout : (deduplicate self tweets).2
                   = filter (λ tweet, Tweet.id tweet ∉ known_ids) tweets).
    { unfold deduplicate. destruct tweets as [|tweet rest]; [done|].
      pose proof (dedup_loop_distinct_ids (db_manager self) ∅ [] (tweet :: rest) Hnd)
        as Hloop.
      destruct (dedup_loop (db_manager self) ∅ [] (tweet :: rest))
        as [seen unique_tweets].
      simpl in Hloop. cbn [snd]. rewrite Hloop by (intros; apply not_elem_of_empty).
      apply list_filter_iff. intros t. simpl.
      rewrite bool_decide_eq_false. tauto. }
    split; [exact Hout|].
    rewrite Hout, filter_updates_filter.
    rewrite Permutation_app_comm.
    apply (filter_app_complement (λ tweet, Tweet.id tweet ∈ known_ids)).
Qed.

(** ** [calculate_similarity] *)

Local Open Scope Q_scope.



(** The similarity does not depend on the order of the two texts. *)
Theorem calculate_similarity_symmetric (text1 text2 : string) :
  calculate_similarity text1 text2 = calculate_similarity text2 text1.
Proof.
  unfold calculate_similarity.
  rewrite (orb_comm (String.eqb text1 "")).
  assert (words_of text1 ∩ words_of text2 = words_of text2 ∩ words_of text1)
    as -> by set_solver.
  assert (words_of text1 ∪ words_of text2 = words_of text2 ∪ words_of text1)
    as -> by set_solver.
  done.
Qed.

Local Close Scope Q_scope.

Lemma set_rank_of_same_fields a b score reason :
  same_collected_fields a b → set_rank a score reason = set_rank b score reason.
Proof.
  unfold same_collected_fields. intros H. destruct_and!.
  unfold set_rank. by f_equal.
Qed.



Section MoreRankFacts.

Variable math_exp : Q → Q.

(** The scoring function reads no derived field: items that agree on the
    collected fields get the same score and the same reason. *)
Lemma calculate_score_same_fields self now a b :
  same_collected_fields a b →
  calculate_score math_exp self now a = calculate_score math_exp self now b.
Proof.
  unfold same_collected_fields. intros H. destruct_and!.
  unfold calculate_score, score_components, engagement_score, recency_score,
    keywords_score.
  by repeat match goal with H : _ = _ |- _ => rewrite H; clear H end.
Qed.






(** The store after the scoring loop: the item at position [i] of the
    list, if it does not occur again later in the list, holds the score
    and reason computed from its own collected fields at the [i]-th
    reading of the clock. *)
Lemma score_tweets_last_reading self clock n heap tweets heap' i r :
  score_tweets math_exp self clock n heap tweets = Ok heap' →
  tweets !! i = Some r → r ∉ drop (S i) tweets →
  ∃ score reason,
    calculate_score math_exp self (mk_datetime (clock (n + i)%nat) (Some 0%Z)) (heap r)
    = Ok (score, reason)
    ∧ heap' r = set_rank (heap r) score reason.
Proof.
  revert n heap i. induction tweets as [|r0 rest IH]; intros n heap i Hrun Hi Hlast.
  - by rewrite lookup_nil in Hi.
  - cbn [score_tweets] in Hrun.
    apply bind_Ok in Hrun as ([score reason] & Hscore & Hrest).
    destruct i as [|j].
    + injection Hi as ->. simpl in Hlast. rewrite drop_0 in Hlast.
      exists score, reason. rewrite Nat.add_0_r. split; [done|].
      apply (score_tweets_frame math_exp) in Hrest as (_ & Hout & _).
      rewrite (Hout r Hlast). unfold store_set. by rewrite decide_True.
    + simpl in Hi, Hlast.
      destruct (IH _ _ _ Hrest Hi Hlast) as (s & rs & Hcalc & Hheap).
      assert (Hsame : same_collected_fields
                (store_set heap r0 (set_rank (heap r0) score reason) r) (heap r)).
      { unfold store_set. case_decide as Heq.
        - subst r. split_and!; reflexivity.
        - apply same_collected_fields_refl. }
      exists s, rs. split.
      * rewrite <- (calculate_score_same_fields _ _ _ _ Hsame).
        by replace (n + S j)%nat with (S n + j)%nat by lia.
      * rewrite Hheap. by apply set_rank_of_same_fields.
Qed.

(** What [rank] leaves in an item: the score and the reason computed from
    the item's collected fields at the clock reading of its last position
    in the list.  An earlier score or reason of the item has no effect. *)
Theorem rank_scores_at_clock_readings self clock heap tweets self' heap' ranked i r :
  rank math_exp self clock heap tweets = Ok (self', heap', ranked) →
  tweets !! i = Some r → r ∉ drop (S i) tweets →
  ∃ score reason,
    calculate_score math_exp self (mk_datetime (clock i) (Some 0%Z)) (heap r)
    = Ok (score, reason)
    ∧ heap' r = set_rank (heap r) score reason
    ∧ (∀ old_score old_reason,
         calculate_score math_exp self (mk_datetime (clock i) (Some 0%Z))
           (set_rank (heap r) old_score old_reason)
         = Ok (score, reason)).
Proof.
  intros Hrun Hi Hlast. apply (rank_inv math_exp) in Hrun as [Hscore _].
  destruct (score_tweets_last_reading _ _ _ _ _ _ _ _ Hscore Hi Hlast)
    as (score & reason & Hcalc & Hheap).
  exists score, reason. split_and!; [done..|].
  intros old_score old_reason. rewrite <- Hcalc.
  apply calculate_score_same_fields. split_and!; reflexivity.
Qed.

End MoreRankFacts.

Local Open Scope Q_scope.

(** ** More on auto-learning *)

Lemma sum_counts_ok (counts : list (option Z)) (acc : Z) :
  (∀ c, c ∈ counts → is_Some c) → ∃ total, sum_counts counts acc = Ok total.
Proof.
  revert acc. induction counts as [|[n|] rest IH]; intros acc Hall.
  - by exists acc.
  - simpl. apply IH. intros c Hc. apply Hall. by right.
  - destruct (Hall None) as [? [=]]. by left.
Qed.

Lemma average_ok (m : metric) (top_tweets : list Tweet.t) :
  top_tweets ≠ [] → (∀ t, t ∈ top_tweets → has_counts t) →
  ∃ avg, average (metric_count m) top_tweets = Ok avg.
Proof.
  intros Hne Hall. unfold average.
  destruct (sum_counts_ok (metric_count m <$> top_tweets) 0%Z) as [total Htotal].
  { intros c Hc. apply list_elem_of_fmap in Hc as (t & -> & Ht). by apply Hall. }
  rewrite Htotal. simpl.
  destruct top_tweets as [|t rest]; [done|].
  unfold float_div. rewrite length_divisor_nonzero. by eexists.
Qed.

Lemma reinforce_missing_key self avg key (w : gmap string Q) :
  min_engagement self < avg → w !! key = None →
  reinforce self avg key w = Raise KeyError.
Proof.
  intros Havg Hkey. unfold reinforce, weights_increment.
  destruct (Qlt_le_dec _ _); [by rewrite Hkey|lra].
Qed.

Lemma reinforce_outcome self avg key (w : gmap string Q) :
  reinforce self avg key w = Raise KeyError
  ∨ ∃ w', reinforce self avg key w = Ok w'
      ∧ dom w' = dom w
      ∧ (min_engagement self < avg →
         ∃ v, w !! key = Some v ∧ w' = <[key := v + learning_rate self]> w)
      ∧ (avg <= min_engagement self → w' = w).
Proof.
  unfold reinforce, weights_increment.
  destruct (Qlt_le_dec _ _) as [Hlt|Hle].
  - destruct (w !! key) as [v|] eqn:Hkey; [|by left].
    right. eexists. split_and!; [done| | |].
    + rewrite dom_insert_L.
      assert (key ∈ dom w) by (apply elem_of_dom; eauto). set_solver.
    + intros _. by exists v.
    + intros Hle. lra.
  - right. exists w. split_and!; [done..| |done]. intros Hlt. lra.
Qed.


Lemma incremented_weights_averages self top_tweets :
  top_tweets ≠ [] → (∀ t, t ∈ top_tweets → has_counts t) →
  ∃ avg_likes avg_retweets avg_replies avg_quotes,
    average (metric_count Likes) top_tweets = Ok avg_likes
    ∧ average (metric_count Retweets) top_tweets = Ok avg_retweets
    ∧ average (metric_count Replies) top_tweets = Ok avg_replies
    ∧ average (metric_count Quotes) top_tweets = Ok avg_quotes
    ∧ incremented_weights self top_tweets
      = (reinforce self avg_likes "likes" (weights self)
         ≫= λ w, reinforce self avg_retweets "retweets" w
         ≫= λ w, reinforce self avg_replies "replies" w
         ≫= λ w, reinforce self avg_quotes "quotes" w).
Proof.
  intros Hne Hall.
  destruct (average_ok Likes top_tweets Hne Hall) as [al Hal].
  destruct (average_ok Retweets top_tweets Hne Hall) as [ar Har].
  destruct (average_ok Replies top_tweets Hne Hall) as [ap Hap].
  destruct (average_ok Quotes top_tweets Hne Hall) as [aq Haq].
  exists al, ar, ap, aq. split_and!; [done..|].
  unfold incremented_weights.
  change (average Tweet.likes top_tweets) with (average (metric_count Likes) top_tweets).
  change (average Tweet.retweets top_tweets) with (average (metric_count Retweets) top_tweets).
  change (average Tweet.replies top_tweets) with (average (metric_count Replies) top_tweets).
  change (average Tweet.quotes top_tweets) with (average (metric_count Quotes) top_tweets).
  by rewrite Hal, Har, Hap, Haq.
Qed.

Lemma average_nonempty attr top_tweets avg :
  average attr top_tweets = Ok avg → top_tweets ≠ [].
Proof. intros Havg ->. discriminate Havg. Qed.

(** The increment of a weight reads the mapping without a fallback: when
    the mean of a metric over the top items exceeds the threshold and the
    mapping has no entry for that metric, the adjustment raises
    [KeyError], although the scoring function scores with its fallback
    weight for the same metric. *)
Theorem adjust_weights_missing_key self top_tweets m avg :
  (∀ t, t ∈ top_tweets → has_counts t) →
  average (metric_count m) top_tweets = Ok avg →
  min_engagement self < avg →
  weights self !! metric_key m = None →
  adjust_weights self top_tweets = Raise KeyError.
Proof.
  intros Hall Havg Hlt Hkey.
  pose proof (average_nonempty _ _ _ Havg) as Hne.
  destruct (incremented_weights_averages self top_tweets Hne Hall)
    as (al & ar & ap & aq & Hal & Har & Hap & Haq & Hinc).
  assert (Hraise : incremented_weights self top_tweets = Raise KeyError).
  { rewrite Hinc. clear Hinc.
    assert (Hstep : ∀ (w : gmap string Q) a key (k : gmap string Q → result (gmap string Q)),
              w !! metric_key m = None →
              (∀ w', w' !! metric_key m = None → k w' = Raise KeyError) →
              reinforce self a key w ≫= k = Raise KeyError).
    { intros w a key k Hw Hk.
      destruct (reinforce_outcome self a key w) as [->|(w' & -> & Hdom & _)]; [done|].
      simpl. apply Hk. apply not_elem_of_dom. rewrite Hdom.
      by apply not_elem_of_dom. }
    destruct m; simpl in Hkey.
    - assert (avg = al) as -> by congruence.
      by rewrite (reinforce_missing_key self al "likes" _ Hlt Hkey).
    - assert (avg = ar) as -> by congruence.
      apply Hstep; [done|]. intros w1 H1.
      by rewrite (reinforce_missing_key self ar "retweets" _ Hlt H1).
    - assert (avg = ap) as -> by congruence.
      apply Hstep; [done|]. intros w1 H1.
      apply Hstep; [done|]. intros w2 H2.
      by rewrite (reinforce_missing_key self ap "replies" _ Hlt H2).
    - assert (avg = aq) as -> by congruence.
      apply Hstep; [done|]. intros w1 H1.
      apply Hstep; [done|]. intros w2 H2.
      apply Hstep; [done|]. intros w3 H3.
      by rewrite (reinforce_missing_key self aq "quotes" _ Hlt H3). }
  unfold adjust_weights. destruct top_tweets; [done|]. by rewrite Hraise.
Qed.

Lemma normalize_weights_outcome (w : gmap string Q) :
  ∃ w', normalize_weights w = Ok w'
    ∧ dom w' = dom w
    ∧ (0 < sum_weights w → w' = (λ v, v / sum_weights w) <$> w)
    ∧ (sum_weights w <= 0 → w' = w).
Proof.
  destruct (Qlt_le_dec 0 (sum_weights w)) as [Hpos|Hle].
  - eexists. split_and!; [by apply normalize_weights_positive| |done|].
    + by rewrite dom_fmap_L.
    + intros Hle. lra.
  - exists w. split_and!; [by apply normalize_weights_not_positive|done| |done].
    intros Hpos. lra.
Qed.




Lemma sum_floats_nonneg (xs : list Q) :
  (∀ x, x ∈ xs → 0 <= x) →
  0 <= sum_floats xs ∧ ∀ x, x ∈ xs → x <= sum_floats xs.
Proof.
  induction xs as [|y xs IH]; intros Hall.
  - split; [unfold sum_floats; simpl; lra|]. intros x Hx. by apply not_elem_of_nil in Hx.
  - destruct IH as [Hsum Hle]; [intros x Hx; apply Hall; by right|].
    assert (Hy : 0 <= y) by (apply Hall; by left).
    pose proof (sum_floats_cons y xs) as Hcons.
    split; [lra|]. intros x Hx.
    apply elem_of_cons in Hx as [->|Hx]; [lra|].
    specialize (Hle x Hx). lra.
Qed.

Lemma sum_weights_nonneg (w : gmap string Q) :
  (∀ key v, w !! key = Some v → 0 <= v) →
  0 <= sum_weights w ∧ ∀ key v, w !! key = Some v → v <= sum_weights w.
Proof.
  intros Hall. unfold sum_weights.
  destruct (sum_floats_nonneg (map_to_list w).*2) as [Hsum Hle].
  { intros x Hx. apply list_elem_of_fmap in Hx as ([key v] & -> & Hkv).
    apply elem_of_map_to_list in Hkv. by apply (Hall key). }
  split; [done|]. intros key v Hkv. apply Hle.
  apply list_elem_of_fmap. exists (key, v). split; [done|].
  by apply elem_of_map_to_list.
Qed.

Lemma reinforce_nonneg self avg key (w w' : gmap string Q) :
  reinforce self avg key w = Ok w' →
  0 <= learning_rate self →
  (∀ k v, w !! k = Some v → 0 <= v) →
  ∀ k v, w' !! k = Some v → 0 <= v.
Proof.
  intros Hrun Hrate Hall k v Hkv.
  destruct (reinforce_outcome self avg key w) as [E|(w'' & E & _ & Hup & Hsame)];
    [congruence|].
  assert (w'' = w') as -> by congruence.
  destruct (Qlt_le_dec (min_engagement self) avg) as [Hlt|Hle].
  - destruct (Hup Hlt) as (v0 & Hv0 & ->).
    destruct (decide (k = key)) as [->|Hne].
    + rewrite lookup_insert_eq in Hkv. injection Hkv as <-.
      specialize (Hall key v0 Hv0). lra.
    + rewrite lookup_insert_ne in Hkv by done. by apply (Hall k).
  - rewrite (Hsame Hle) in Hkv. by apply (Hall k).
Qed.

(** Auto-learning keeps the weights in range: when no weight is negative
    and the learning rate is not negative, after an adjustment over a
    non-empty list of top items every weight lies between 0 and 1. *)
Theorem adjust_weights_range self top_tweets self' :
  adjust_weights self top_tweets = Ok self' →
  top_tweets ≠ [] →
  0 <= learning_rate self →
  (∀ key v, weights self !! key = Some v → 0 <= v) →
  ∀ key v, weights self' !! key = Some v → 0 <= v ∧ v <= 1.
Proof.
  unfold adjust_weights. destruct top_tweets as [|t rest]; [done|].
  intros Hrun _ Hrate Hall.
  apply bind_Ok in Hrun as (w & Hinc & Hrun).
  apply bind_Ok in Hrun as (w' & Hnorm & Hrun).
  injection Hrun as <-. simpl.
  assert (Hw : ∀ k v, w !! k = Some v → 0 <= v).
  { unfold incremented_weights in Hinc.
    apply bind_Ok in Hinc as (avg_likes & _ & Hinc).
    apply bind_Ok in Hinc as (avg_retweets & _ & Hinc).
    apply bind_Ok in Hinc as (avg_replies & _ & Hinc).
    apply bind_Ok in Hinc as (avg_quotes & _ & Hinc).
    apply bind_Ok in Hinc as (w1 & H1 & Hinc).
    apply bind_Ok in Hinc as (w2 & H2 & Hinc).
    apply bind_Ok in Hinc as (w3 & H3 & H4).
    eapply reinforce_nonneg; [exact H4|done|].
    eapply reinforce_nonneg; [exact H3|done|].
    eapply reinforce_nonneg; [exact H2|done|].
    eapply reinforce_nonneg; [exact H1|done|done]. }
  destruct (sum_weights_nonneg w Hw) as [Hsum Hle].
  destruct (normalize_weights_outcome w) as (w'' & Hn & _ & Hpos & Hzero).
  assert (w'' = w') as -> by congruence.
  intros key v Hkv.
  destruct (Qlt_le_dec 0 (sum_weights w)) as [Htotal|Htotal].
  - rewrite (Hpos Htotal), lookup_fmap in Hkv.
    destruct (w !! key) as [v0|] eqn:Hv0; [|done]. injection Hkv as <-.
    specialize (Hw key v0 Hv0). specialize (Hle key v0 Hv0).
    split.
    + apply Qle_shift_div_l; [done|lra].
    + apply Qle_shift_div_r; [done|lra].
  - rewrite (Hzero Htotal) in Hkv.
    specialize (Hw key v Hkv). specialize (Hle key v Hkv). split; lra.
Qed.

Local Close Scope Q_scope.

Local Open Scope Q_scope.





Section RecencyFacts.

Variable math_exp : Q → Q.


End RecencyFacts.

(** ** The slice of the best items ([run_daily_collection]) *)

Lemma sorted_app_desc {A} (key : A → Q) (l1 l2 : list A) :
  StronglySorted (desc key) (l1 ++ l2) →
  ∀ a b, a ∈ l1 → b ∈ l2 → key b <= key a.
Proof.
  induction l1 as [|x l1 IH]; intros Hs a b Ha Hb.
  - by apply not_elem_of_nil in Ha.
  - simpl in Hs. apply StronglySorted_inv in Hs as [Hs Hall].
    apply elem_of_cons in Ha as [->|Ha]; [|by apply IH].
    rewrite Forall_forall in Hall. apply Hall.
    apply elem_of_app. by right.
Qed.

Lemma slice_to_take {A} (k : Z) (xs : list A) :
  ∃ n, slice_to k xs = take n xs
    ∧ ((0 ≤ k)%Z → n = Z.to_nat k)
    ∧ ((k < 0)%Z → n = (length xs - Z.to_nat (- k))%nat).
Proof.
  unfold slice_to. destruct (Z.leb_spec 0 k).
  - eexists. split_and!; [done|done|lia].
  - eexists. split_and!; [done|lia|done].
Qed.

Section SliceFacts.

Variable math_exp : Q → Q.

(** The slice [ranked_tweets[:k]] that the daily run keeps holds the best
    items: it is a prefix of the ranked list, of [min k n] items for a
    count that is not negative and of all but the last [-k] items for a
    negative count, and no item left out has a larger effective score
    than an item kept. *)
Theorem top_slice_holds_best self clock heap tweets self' heap' ranked k :
  rank math_exp self clock heap tweets = Ok (self', heap', ranked) →
  slice_to k ranked `prefix_of` ranked
  ∧ ((0 ≤ k)%Z → length (slice_to k ranked)
               = Nat.min (Z.to_nat k) (length tweets))
  ∧ ((k < 0)%Z → length (slice_to k ranked)
               = (length tweets - Z.to_nat (- k))%nat)
  ∧ ∀ kept left_out,
      kept ∈ slice_to k ranked →
      left_out ∈ drop (length (slice_to k ranked)) ranked →
      sort_key heap' left_out <= sort_key heap' kept.
Proof.
  intros Hrun.
  apply (rank_inv math_exp) in Hrun as [_ ->].
  pose proof (sorted_desc_sorted (sort_key heap') tweets) as Hsorted.
  pose proof (Permutation_length (sorted_desc_perm (sort_key heap') tweets)) as Hperm.
  set (ranked := sorted_desc (sort_key heap') tweets) in *. clearbody ranked.
  destruct (slice_to_take k ranked) as (n & Hn & Hpos & Hneg).
  rewrite Hn. split_and!.
  - exists (drop n ranked). by rewrite take_drop.
  - intros Hk. rewrite length_take, (Hpos Hk). lia.
  - intros Hk. rewrite length_take, (Hneg Hk). lia.
  - intros kept left_out Hkept Hleft.
    apply (sorted_app_desc (sort_key heap') (take n ranked)
             (drop (length (take n ranked)) ranked)); [|done..].
    rewrite length_take.
    destruct (Nat.min_spec n (length ranked)) as [[Hlt ->]|[Hle ->]].
    + by rewrite take_drop.
    + rewrite take_ge by lia. rewrite drop_all. by rewrite app_nil_r.
Qed.

End SliceFacts.

Local Close Scope Q_scope.

(** Round trip through the dictionary: [from_dict] rebuilds from
    [to_dict] an object with the attributes of the item, the derived
    ones included, provided [fromisoformat] reads back what [isoformat]
    printed for the creation time.  The dictionary holds all fifteen
    keys, so no fallback of [from_dict] is used. *)
Theorem from_dict_to_dict isoformat fromisoformat strptime now (t : Tweet.t) :
  (∀ d, Tweet.created_at t = Some d → fromisoformat (isoformat d) = Some d) →
  from_dict fromisoformat strptime now (to_dict isoformat t) = dyn_of t
  ∧ size (to_dict isoformat t) = 15.
Proof.
  intros Hiso. split; [|reflexivity].
  unfold from_dict, dyn_of, dict_get.
  assert (Hcreated :
    match default PNone (to_dict isoformat t !! "created_at") with
    | PStr s =>
        match fromisoformat s with
        | Some d => PDatetime d
        | None => match strptime s with
                  | Some d => PDatetime d
                  | None => PDatetime now
                  end
        end
    | other => other
    end
    = match Tweet.created_at t with Some d => PDatetime d | None => PNone end).
  { change (to_dict isoformat t !! "created_at")
      with (Some (match Tweet.created_at t with
                  | Some d => PStr (isoformat d)
                  | None => PNone
                  end)).
    destruct (Tweet.created_at t) as [d|] eqn:Hd; [|done].
    simpl. by rewrite (Hiso d eq_refl). }
  rewrite Hcreated. reflexivity.
Qed.

Section DatabaseFacts.

Variable isoformat : datetime → string.
Variable json_dumps : list string → string.

Lemma save_one_outcome date (table table' : gmap string TweetRow) tweet :
  save_one isoformat json_dumps date table tweet = Some table' →
  dom table' = {[Tweet.id tweet]} ∪ dom table
  ∧ (∀ id row, table !! id = Some row →
       ∃ row', table' !! id = Some row' ∧ same_inserted_columns row row')
  ∧ ∃ row', table' !! Tweet.id tweet = Some row'
      ∧ row_likes row' = Tweet.likes tweet
      ∧ row_retweets row' = Tweet.retweets tweet
      ∧ row_replies row' = Tweet.replies tweet
      ∧ row_quotes row' = Tweet.quotes tweet
      ∧ row_rank_score row' = Tweet.rank_score tweet
      ∧ row_rank_reason row' = Tweet.rank_reason tweet
      ∧ row_collection_date row' = date.
Proof.
  unfold save_one. intros Hrun.
  destruct (table !! Tweet.id tweet) as [row0|] eqn:Hrow.
  - destruct (counts_bindable tweet); [|done]. injection Hrun as <-.
    split_and!.
    + rewrite dom_insert_L. done.
    + intros id row Hid. destruct (decide (id = Tweet.id tweet)) as [->|Hne].
      * rewrite lookup_insert_eq. eexists. split; [done|].
        assert (row = row0) as -> by congruence. by repeat split.
      * rewrite lookup_insert_ne by done. exists row. by repeat split.
    + rewrite lookup_insert_eq. eexists. by repeat split.
  - destruct (Tweet.created_at tweet) as [d|]; [|done].
    destruct (counts_bindable tweet); [|done]. injection Hrun as <-.
    split_and!.
    + by rewrite dom_insert_L.
    + intros id row Hid. rewrite lookup_insert_ne by congruence.
      exists row. by repeat split.
    + rewrite lookup_insert_eq. eexists. by repeat split.
Qed.

Lemma same_inserted_columns_trans a b c :
  same_inserted_columns a b → same_inserted_columns b c →
  same_inserted_columns a c.
Proof.
  unfold same_inserted_columns. intros. destruct_and!. split_and!; congruence.
Qed.

Lemma save_loop_outcome date (table table' : gmap string TweetRow) tweets :
  save_loop isoformat json_dumps date table tweets = Some table' →
  dom table' = list_to_set (Tweet.id <$> tweets) ∪ dom table
  ∧ (∀ id row, table !! id = Some row →
       ∃ row', table' !! id = Some row' ∧ same_inserted_columns row row').
Proof.
  revert table. induction tweets as [|tweet rest IH]; intros table Hrun.
  - injection Hrun as <-. split; [set_solver|].
    intros id row Hid. exists row. by repeat split.
  - cbn [save_loop] in Hrun.
    destruct (save_one isoformat json_dumps date table tweet) as [table1|] eqn:Hone;
      [|done].
    apply save_one_outcome in Hone as (Hdom1 & Hkeep1 & _).
    apply IH in Hrun as (Hdom & Hkeep). split.
    + rewrite Hdom, Hdom1. set_solver.
    + intros id row Hid. destruct (Hkeep1 id row Hid) as (row1 & Hid1 & Hsame1).
      destruct (Hkeep id row1 Hid1) as (row' & Hid' & Hsame').
      exists row'. split; [done|]. by eapply same_inserted_columns_trans.
Qed.

Lemma save_loop_other_id date (table table' : gmap string TweetRow) tweets id :
  save_loop isoformat json_dumps date table tweets = Some table' →
  id ∉ (Tweet.id <$> tweets) → table' !! id = table !! id.
Proof.
  revert table. induction tweets as [|tweet rest IH]; intros table Hrun Hid.
  - by injection Hrun as <-.
  - cbn [save_loop] in Hrun.
    destruct (save_one isoformat json_dumps date table tweet) as [table1|] eqn:Hone;
      [|done].
    rewrite fmap_cons, not_elem_of_cons in Hid. destruct Hid as [Hne Hid].
    rewrite (IH _ Hrun Hid).
    unfold save_one in Hone.
    destruct (table !! Tweet.id tweet), (Tweet.created_at tweet),
      (counts_bindable tweet); try done; injection Hone as <-;
      by rewrite lookup_insert_ne.
Qed.

Lemma save_tweets_inv (table table' : gmap string TweetRow) date tweets :
  save_tweets isoformat json_dumps table date tweets = (table', true) →
  save_loop isoformat json_dumps date table tweets = Some table'.
Proof.
  unfold save_tweets. destruct tweets as [|t rest] eqn:Htweets; [done|].
  rewrite <- Htweets.
  destruct (save_loop isoformat json_dumps date table tweets); [|done].
  by intros [= <-].
Qed.

Lemma is_duplicate_tweet_dom (table : gmap string TweetRow) id :
  is_duplicate_tweet table id = true ↔ id ∈ dom table.
Proof.
  unfold is_duplicate_tweet. by rewrite bool_decide_eq_true, elem_of_dom.
Qed.

Lemma save_tweets_duplicates (table table' : gmap string TweetRow) date tweets :
  save_tweets isoformat json_dumps table date tweets = (table', true) →
  (∀ tweet, tweet ∈ tweets → is_duplicate_tweet table' (Tweet.id tweet) = true)
  ∧ (∀ id, is_duplicate_tweet table id = true → is_duplicate_tweet table' id = true).
Proof.
  intros Hsave. apply save_tweets_inv in Hsave.
  destruct (save_loop_outcome _ _ _ _ Hsave) as [Hdom _]. split.
  - intros tweet Hin. apply is_duplicate_tweet_dom. rewrite Hdom.
    apply elem_of_union. left. apply elem_of_list_to_set.
    apply list_elem_of_fmap. by exists tweet.
  - intros id Hid. apply is_duplicate_tweet_dom.
    apply is_duplicate_tweet_dom in Hid. rewrite Hdom.
    apply elem_of_union. by right.
Qed.

(** What a successful [save_tweets] commits: the stored ids are those
    stored before and those of the batch, so every id of the batch is
    then reported by [is_duplicate_tweet] and no id is forgotten; an id
    outside the batch keeps its row. *)
Theorem save_tweets_stores_ids (table table' : gmap string TweetRow) date tweets :
  save_tweets isoformat json_dumps table date tweets = (table', true) →
  dom table' = list_to_set (Tweet.id <$> tweets) ∪ dom table
  ∧ (∀ tweet, tweet ∈ tweets → is_duplicate_tweet table' (Tweet.id tweet) = true)
  ∧ (∀ id, is_duplicate_tweet table id = true → is_duplicate_tweet table' id = true)
  ∧ (∀ id, id ∉ (Tweet.id <$> tweets) → table' !! id = table !! id).
Proof.
  intros Hsave.
  destruct (save_tweets_duplicates _ _ _ _ Hsave) as [Hnew Hold].
  apply save_tweets_inv in Hsave.
  destruct (save_loop_outcome _ _ _ _ Hsave) as [Hdom _].
  split_and!; [done..|].
  intros id Hid. by eapply save_loop_other_id.
Qed.

Lemma save_loop_last_item date (table table' : gmap string TweetRow) tweets i tweet :
  save_loop isoformat json_dumps date table tweets = Some table' →
  tweets !! i = Some tweet →
  Tweet.id tweet ∉ (Tweet.id <$> drop (S i) tweets) →
  ∃ row', table' !! Tweet.id tweet = Some row'
    ∧ row_likes row' = Tweet.likes tweet
    ∧ row_retweets row' = Tweet.retweets tweet
    ∧ row_replies row' = Tweet.replies tweet
    ∧ row_quotes row' = Tweet.quotes tweet
    ∧ row_rank_score row' = Tweet.rank_score tweet
    ∧ row_rank_reason row' = Tweet.rank_reason tweet
    ∧ row_collection_date row' = date.
Proof.
  revert table i. induction tweets as [|t0 rest IH]; intros table i Hrun Hi Hlast.
  - by rewrite lookup_nil in Hi.
  - cbn [save_loop] in Hrun.
    destruct (save_one isoformat json_dumps date table t0) as [table1|] eqn:Hone;
      [|done].
    destruct i as [|j].
    + injection Hi as ->. simpl in Hlast. rewrite drop_0 in Hlast.
      apply save_one_outcome in Hone as (_ & _ & row' & Hrow' & Hvals).
      exists row'. split; [|exact Hvals].
      by rewrite (save_loop_other_id _ _ _ _ _ Hrun Hlast).
    + simpl in Hi, Hlast. by apply (IH table1 j).
Qed.

(** [save_tweets] is an upsert.  A row stored before the call keeps the
    columns written at its insertion (author, content, creation time,
    url, platform, urls, report id); the row of an item of the batch
    holds the counts, the score, the reason and the collection date of
    the last item of the batch with that id. *)
Theorem save_tweets_upserts (table table' : gmap string TweetRow) date tweets :
  save_tweets isoformat json_dumps table date tweets = (table', true) →
  (∀ id row, table !! id = Some row →
     ∃ row', table' !! id = Some row' ∧ same_inserted_columns row row')
  ∧ (∀ i tweet, tweets !! i = Some tweet →
       Tweet.id tweet ∉ (Tweet.id <$> drop (S i) tweets) →
       ∃ row', table' !! Tweet.id tweet = Some row'
         ∧ row_likes row' = Tweet.likes tweet
         ∧ row_retweets row' = Tweet.retweets tweet
         ∧ row_replies row' = Tweet.replies tweet
         ∧ row_quotes row' = Tweet.quotes tweet
         ∧ row_rank_score row' = Tweet.rank_score tweet
         ∧ row_rank_reason row' = Tweet.rank_reason tweet
         ∧ row_collection_date row' = date).
Proof.
  intros Hsave. apply save_tweets_inv in Hsave. split.
  - by destruct (save_loop_outcome _ _ _ _ Hsave) as [_ Hkeep].
  - intros i tweet Hi Hlast. by eapply save_loop_last_item.
Qed.

(** The batch is saved as a whole or not at all: an empty batch, or a
    batch with an item of an id not stored before (by the table or by an
    earlier item of the batch) that has no creation time, is answered
    with [False] and the table is left as it was, the items in front of
    the offending one included. *)
Theorem save_tweets_rejects_batch (table : gmap string TweetRow) date
    (before after : list Tweet.t) tweet :
  Tweet.created_at tweet = None →
  table !! Tweet.id tweet = None →
  Tweet.id tweet ∉ (Tweet.id <$> before) →
  save_tweets isoformat json_dumps table date (before ++ tweet :: after)
  = (table, false)
  ∧ save_tweets isoformat json_dumps table date [] = (table, false).
Proof.
  intros Hcreated Hnew Hfresh. split; [|done].
  assert (Hloop : save_loop isoformat json_dumps date table (before ++ tweet :: after)
                  = None).
  { revert table Hnew. induction before as [|t0 before IH]; intros table Hnew.
    - simpl. unfold save_one. by rewrite Hnew, Hcreated.
    - rewrite fmap_cons, not_elem_of_cons in Hfresh. destruct Hfresh as [Hne Hfresh].
      cbn [app save_loop].
      destruct (save_one isoformat json_dumps date table t0) as [table1|] eqn:Hone;
        [|done].
      apply IH; [done|].
      unfold save_one in Hone.
      destruct (table !! Tweet.id t0), (Tweet.created_at t0),
        (counts_bindable t0); try done; injection Hone as <-;
        by rewrite lookup_insert_ne. }
  unfold save_tweets. rewrite Hloop. by destruct before.
Qed.

(** Saving makes a batch a duplicate: after a successful [save_tweets],
    [deduplicate] with the table as oracle returns the empty list for the
    saved batch, and for any batch whose ids are all stored. *)
Theorem deduplicate_after_save (table table' : gmap string TweetRow) date tweets
    (seen0 : gset string) (batch : list Tweet.t) :
  save_tweets isoformat json_dumps table date tweets = (table', true) →
  (∀ t, t ∈ batch → Tweet.id t ∈ (Tweet.id <$> tweets)
                    ∨ is_duplicate_tweet table (Tweet.id t) = true) →
  let self := {| db_manager := Some (is_duplicate_tweet table'); seen_ids := seen0 |} in
  (deduplicate self batch).2 = []
  ∧ (deduplicate self tweets).2 = [].
Proof.
  intros Hsave Hbatch self.
  destruct (save_tweets_duplicates _ _ _ _ Hsave) as (Hnew & Hold).
  assert (Hgen : ∀ l : list Tweet.t,
            (∀ t, t ∈ l → is_duplicate_tweet table' (Tweet.id t) = true) →
            (deduplicate self l).2 = []).
  { intros l Hall.
    destruct ((deduplicate self l).2) as [|t out] eqn:Hout; [done|].
    assert (Hin : t ∈ (deduplicate self l).2) by (rewrite Hout; by left).
    pose proof (deduplicate_not_in_database self l t Hin) as Hdb. simpl in Hdb.
    assert (Hl : t ∈ l).
    { rewrite (deduplicate_positions (db_manager self)) in Hin by done.
      eapply elem_of_sublist; [exact Hin|]. apply select_positions_sublist. }
    rewrite (Hall t Hl) in Hdb. discriminate Hdb. }
  split; apply Hgen.
  - intros t Ht. destruct (Hbatch t Ht) as [Hid|Hid]; [|by apply Hold].
    apply list_elem_of_fmap in Hid as (t' & Heq & Ht'). rewrite Heq. by apply Hnew.
  - exact Hnew.
Qed.

End DatabaseFacts.

(** ** The state of the deduplicator *)

Lemma dedup_loop_seen db seen unique_tweets tweets :
  (dedup_loop db seen unique_tweets tweets).1
  = seen ∪ list_to_set (Tweet.id <$> drop (length unique_tweets)
                          (dedup_loop db seen unique_tweets tweets).2)
  ∧ take (length unique_tweets) (dedup_loop db seen unique_tweets tweets).2
    = unique_tweets.
Proof.
  revert seen unique_tweets.
  induction tweets as [|tweet rest IH]; intros seen unique_tweets.
  - simpl. rewrite drop_all, take_ge by done. split; [set_solver|done].
  - cbn [dedup_loop]. case_bool_decide as Hseen; [apply IH|].
    destruct (in_database db (Tweet.id tweet)); [apply IH|].
    destruct (IH ({[Tweet.id tweet]} ∪ seen) (unique_tweets ++ [tweet]))
      as [Hseen' Htake].
    set (out := (dedup_loop db ({[Tweet.id tweet]} ∪ seen)
                   (unique_tweets ++ [tweet]) rest).2) in *.
    rewrite length_app in Hseen', Htake. simpl in Hseen', Htake.
    assert (Hout : out = unique_tweets ++ tweet :: drop (length unique_tweets + 1) out).
    { rewrite <- (take_drop (length unique_tweets + 1) out) at 1.
      rewrite Htake. by rewrite <- app_assoc. }
    split.
    + rewrite Hseen'. rewrite Hout at 2.
      rewrite drop_app_length. rewrite fmap_cons, list_to_set_cons. set_solver.
    + rewrite Hout. by rewrite take_app_length.
Qed.

(** After [deduplicate] on a non-empty batch, [seen_ids] is the set of
    the ids of the returned items, whatever it held before; on an empty
    batch the deduplicator returns before resetting it, and [seen_ids]
    keeps the ids of the previous call. *)
Theorem deduplicate_seen_ids (self : TweetDeduplicator) (tweets : list Tweet.t) :
  db_manager (deduplicate self tweets).1 = db_manager self
  ∧ match tweets with
    | [] => seen_ids (deduplicate self tweets).1 = seen_ids self
    | _ => seen_ids (deduplicate self tweets).1
           = list_to_set (Tweet.id <$> (deduplicate self tweets).2)
    end.
Proof.
  unfold deduplicate. destruct tweets as [|tweet rest]; [done|].
  pose proof (dedup_loop_seen (db_manager self) ∅ [] (tweet :: rest)) as [Hseen _].
  destruct (dedup_loop (db_manager self) ∅ [] (tweet :: rest)) as [seen out].
  simpl in *. split; [done|]. rewrite Hseen, drop_0. set_solver.
Qed.

(** ** From the collector to the ranker *)



(** ** The further properties on the sample inputs *)




Lemma rank_scores_at_clock_readings_witness :
  ∃ self' heap' ranked score reason,
    rank exp_sample sample_ranker sample_clock sample_heap [3; 2; 1; 0]
    = Ok (self', heap', ranked)
    ∧ calculate_score exp_sample sample_ranker
        (mk_datetime (sample_clock 2) (Some 0%Z)) (sample_heap 1)
      = Ok (score, reason)
    ∧ heap' 1 = set_rank (sample_heap 1) score reason.
Proof.
  destruct (rank exp_sample sample_ranker sample_clock sample_heap [3; 2; 1; 0])
    as [[[self' heap'] ranked]|e] eqn:Hrun.
  - assert (Hlast : 1 ∉ drop 3 [3; 2; 1; 0]).
    { simpl. intros H. apply list_elem_of_singleton in H. discriminate H. }
    destruct (rank_scores_at_clock_readings exp_sample sample_ranker sample_clock
                sample_heap [3; 2; 1; 0] self' heap' ranked 2 1 Hrun eq_refl Hlast)
      as (score & reason & Hcalc & Hheap & _).
    exists self', heap', ranked, score, reason.
    split; [reflexivity|]. split; [exact Hcalc|exact Hheap].
  - vm_compute in Hrun. discriminate Hrun.
Defined.

Lemma rank_auto_learning_witness :
  ∃ self' heap' ranked,
    rank exp_sample sample_learning_ranker sample_clock sample_heap sample_batch
    = Ok (self', heap', ranked)
    ∧ adjust_weights sample_learning_ranker (heap' <$> take 10 ranked) = Ok self'.
Proof.
  destruct (rank exp_sample sample_learning_ranker sample_clock sample_heap sample_batch)
    as [[[self' heap'] ranked]|e] eqn:Hrun.
  - pose proof (rank_auto_learning exp_sample sample_learning_ranker sample_clock
                  sample_heap sample_batch self' heap' ranked Hrun) as Hlearn.
    change (adjust_weights sample_learning_ranker (heap' <$> take 10 ranked) = Ok self'
            ∧ take 10 ranked ≠ []) in Hlearn.
    exists self', heap', ranked. split; [reflexivity|exact (proj1 Hlearn)].
  - vm_compute in Hrun. discriminate Hrun.
Defined.

Lemma sample_top_tweets_have_counts t :
  t ∈ sample_top_tweets → has_counts t.
Proof.
  intros Ht. unfold sample_top_tweets in Ht.
  repeat (apply elem_of_cons in Ht as [->|Ht]; [intros []; simpl; eauto|]).
  by apply not_elem_of_nil in Ht.
Qed.

Lemma adjust_weights_missing_key_witness :
  adjust_weights sample_unweighted_ranker sample_top_tweets = Raise KeyError.
Proof.
  set (avg := match average (metric_count Likes) sample_top_tweets with
              | Ok a => a
              | Raise _ => 0%Q
              end).
  assert (Havg : average (metric_count Likes) sample_top_tweets = Ok avg)
    by (vm_compute; reflexivity).
  assert (Hlt : (min_engagement sample_unweighted_ranker < avg)%Q)
    by (vm_compute; reflexivity).
  assert (Hkey : weights sample_unweighted_ranker !! metric_key Likes = None)
    by reflexivity.
  exact (adjust_weights_missing_key sample_unweighted_ranker sample_top_tweets
           Likes avg sample_top_tweets_have_counts Havg Hlt Hkey).
Defined.



Lemma sample_learning_weights_nonneg key v :
  weights sample_learning_ranker !! key = Some v → (0 <= v)%Q.
Proof.
  intros Hkv.
  assert (Hall : map_Forall (λ (_ : string) (w : Q), Qle_bool 0 w = true)
                   (weights sample_learning_ranker)).
  { apply map_Forall_to_list. vm_compute. repeat constructor. }
  apply Qle_bool_iff. exact (Hall key v Hkv).
Qed.

Lemma adjust_weights_range_witness :
  ∃ self',
    adjust_weights sample_learning_ranker sample_top_tweets = Ok self'
    ∧ ∀ key v, weights self' !! key = Some v → (0 <= v)%Q ∧ (v <= 1)%Q.
Proof.
  destruct (adjust_weights sample_learning_ranker sample_top_tweets)
    as [self'|e] eqn:Hrun.
  - exists self'. split; [reflexivity|].
    apply (adjust_weights_range sample_learning_ranker sample_top_tweets self' Hrun).
    + discriminate.
    + vm_compute. discriminate.
    + exact sample_learning_weights_nonneg.
  - vm_compute in Hrun. discriminate Hrun.
Defined.


Lemma top_slice_holds_best_witness :
  ∃ self' heap' ranked,
    rank exp_sample sample_ranker sample_clock sample_heap [3; 2; 1; 0]
    = Ok (self', heap', ranked)
    ∧ slice_to 2 ranked `prefix_of` ranked
    ∧ length (slice_to 2 ranked) = 2.
Proof.
  destruct (rank exp_sample sample_ranker sample_clock sample_heap [3; 2; 1; 0])
    as [[[self' heap'] ranked]|e] eqn:Hrun.
  - destruct (top_slice_holds_best exp_sample sample_ranker sample_clock sample_heap
                [3; 2; 1; 0] self' heap' ranked 2 Hrun)
      as (Hprefix & Hlen & _ & _).
    exists self', heap', ranked.
    split; [reflexivity|]. split; [exact Hprefix|]. apply Hlen. lia.
  - vm_compute in Hrun. discriminate Hrun.
Defined.

Lemma from_dict_to_dict_witness :
  from_dict (λ _, Some (mk_datetime 3600000000 None)) (λ _, None) sample_now
    (to_dict sample_isoformat (sample_tweet "a" 100 10))
  = dyn_of (sample_tweet "a" 100 10).
Proof.
  apply (from_dict_to_dict sample_isoformat
           (λ _, Some (mk_datetime 3600000000 None)) (λ _, None) sample_now
           (sample_tweet "a" 100 10)).
  intros d Hd. simpl in Hd. injection Hd as <-. reflexivity.
Defined.


Lemma save_tweets_stores_ids_witness :
  ∃ table',
    save_tweets sample_isoformat sample_json_dumps sample_table "day 2"
      [sample_tweet "b" 1 1] = (table', true)
    ∧ dom table' = list_to_set (Tweet.id <$> [sample_tweet "b" 1 1]) ∪ dom sample_table.
Proof.
  set (table' := (save_tweets sample_isoformat sample_json_dumps sample_table "day 2"
                    [sample_tweet "b" 1 1]).1).
  assert (Hrun : save_tweets sample_isoformat sample_json_dumps sample_table "day 2"
                   [sample_tweet "b" 1 1] = (table', true))
    by (vm_compute; reflexivity).
  exists table'. split; [exact Hrun|].
  exact (proj1 (save_tweets_stores_ids sample_isoformat sample_json_dumps
                  sample_table table' "day 2" [sample_tweet "b" 1 1] Hrun)).
Defined.

Lemma save_tweets_upserts_witness :
  ∃ table',
    save_tweets sample_isoformat sample_json_dumps sample_table "day 2"
      [sample_tweet "a" 7 3; sample_tweet "b" 1 1] = (table', true)
    ∧ ∀ id row, sample_table !! id = Some row →
        ∃ row', table' !! id = Some row' ∧ same_inserted_columns row row'.
Proof.
  set (table' := (save_tweets sample_isoformat sample_json_dumps sample_table "day 2"
                    [sample_tweet "a" 7 3; sample_tweet "b" 1 1]).1).
  assert (Hrun : save_tweets sample_isoformat sample_json_dumps sample_table "day 2"
                   [sample_tweet "a" 7 3; sample_tweet "b" 1 1] = (table', true))
    by (vm_compute; reflexivity).
  exists table'. split; [exact Hrun|].
  exact (proj1 (save_tweets_upserts sample_isoformat sample_json_dumps
                  sample_table table' "day 2"
                  [sample_tweet "a" 7 3; sample_tweet "b" 1 1] Hrun)).
Defined.

Lemma save_tweets_rejects_batch_witness :
  save_tweets sample_isoformat sample_json_dumps sample_table "day 2"
    ([sample_tweet "b" 1 1] ++ sample_tweet_undated :: [])
  = (sample_table, false).
Proof.
  apply (save_tweets_rejects_batch sample_isoformat sample_json_dumps sample_table
           "day 2" [sample_tweet "b" 1 1] [] sample_tweet_undated).
  - reflexivity.
  - vm_compute. reflexivity.
  - simpl. intros Hin. apply list_elem_of_singleton in Hin. discriminate Hin.
Defined.

Lemma deduplicate_after_save_witness :
  ∃ table',
    save_tweets sample_isoformat sample_json_dumps sample_table "day 2"
      [sample_tweet "b" 1 1] = (table', true)
    ∧ (deduplicate {| db_manager := Some (is_duplicate_tweet table'); seen_ids := ∅ |}
         [sample_tweet "a" 5 5; sample_tweet "b" 2 2]).2 = [].
Proof.
  set (table' := (save_tweets sample_isoformat sample_json_dumps sample_table "day 2"
                    [sample_tweet "b" 1 1]).1).
  assert (Hrun : save_tweets sample_isoformat sample_json_dumps sample_table "day 2"
                   [sample_tweet "b" 1 1] = (table', true))
    by (vm_compute; reflexivity).
  exists table'. split; [exact Hrun|].
  apply (deduplicate_after_save sample_isoformat sample_json_dumps sample_table table'
           "day 2" [sample_tweet "b" 1 1] ∅
           [sample_tweet "a" 5 5; sample_tweet "b" 2 2] Hrun).
  intros t Ht. apply elem_of_cons in Ht as [->|Ht].
  - right. vm_compute. reflexivity.
  - apply list_elem_of_singleton in Ht as ->. left. simpl. left.
Defined.


(** ** Reports and the stored part of the daily run *)

Section ReportFacts.

Variable strftime : string → datetime → string.
Variable isoformat : datetime → string.
Variable json_dumps : list string → string.

Lemma save_one_report_id date (table table' : gmap string TweetRow) tweet id :
  save_one isoformat json_dumps date table tweet = Some table' →
  (table' !! id ≫= row_report_id) = (table !! id ≫= row_report_id).
Proof.
  unfold save_one. intros Hrun.
  destruct (table !! Tweet.id tweet) as [row0|] eqn:Hrow.
  - destruct (counts_bindable tweet); [|done]. injection Hrun as <-.
    destruct (decide (id = Tweet.id tweet)) as [->|Hne].
    + by rewrite lookup_insert_eq, Hrow.
    + by rewrite lookup_insert_ne.
  - destruct (Tweet.created_at tweet) as [d|]; [|done].
    destruct (counts_bindable tweet); [|done]. injection Hrun as <-.
    destruct (decide (id = Tweet.id tweet)) as [->|Hne].
    + by rewrite lookup_insert_eq, Hrow.
    + by rewrite lookup_insert_ne.
Qed.

Lemma save_loop_report_id date (table table' : gmap string TweetRow) tweets id :
  save_loop isoformat json_dumps date table tweets = Some table' →
  (table' !! id ≫= row_report_id) = (table !! id ≫= row_report_id).
Proof.
  revert table. induction tweets as [|tweet rest IH]; intros table Hrun.
  - by injection Hrun as <-.
  - cbn [save_loop] in Hrun.
    destruct (save_one isoformat json_dumps date table tweet) as [table1|] eqn:Hone;
      [|done].
    rewrite (IH _ Hrun). by apply (save_one_report_id date _ _ tweet).
Qed.

Lemma save_tweets_report_id date (table : gmap string TweetRow) tweets id :
  ((save_tweets isoformat json_dumps table date tweets).1 !! id ≫= row_report_id)
  = (table !! id ≫= row_report_id).
Proof.
  unfold save_tweets. destruct tweets as [|t rest] eqn:Htweets; [done|].
  rewrite <- Htweets.
  destruct (save_loop isoformat json_dumps date table tweets) as [table'|] eqn:Hrun;
    [|done].
  simpl. by apply (save_loop_report_id date _ _ tweets).
Qed.

Lemma report_tweets_dom (table : gmap string TweetRow) report_id id :
  id ∈ dom (report_tweets table report_id)
  ↔ (table !! id ≫= row_report_id) = Some report_id.
Proof.
  unfold report_tweets. rewrite elem_of_dom. split.
  - intros [row Hrow]. apply map_lookup_filter_Some in Hrow as [Hrow Hid].
    by rewrite Hrow.
  - intros Hid. destruct (table !! id) as [row|] eqn:Hrow; [|done].
    exists row. by apply map_lookup_filter_Some.
Qed.

Lemma unlinked_report_tweets (table : gmap string TweetRow) report_id :
  unlinked table → report_tweets table report_id = ∅.
Proof.
  intros Hun. apply map_empty_filter_2. intros id row Hrow Hid.
  simpl in Hid. rewrite (Hun id row Hrow) in Hid. discriminate Hid.
Qed.

Lemma save_tweets_unlinked date (table : gmap string TweetRow) tweets :
  unlinked table → unlinked (save_tweets isoformat json_dumps table date tweets).1.
Proof.
  intros Hun id row Hrow.
  pose proof (save_tweets_report_id date table tweets id) as Hid.
  rewrite Hrow in Hid. simpl in Hid. rewrite Hid.
  destruct (table !! id) as [row0|] eqn:Hrow0; [|done].
  exact (Hun id row0 Hrow0).
Qed.

(** [save_tweets] never links an item to a report: whatever its outcome,
    the ids that [get_report] selects for a report are those it selected
    before; a table in which no row belongs to a report stays so, and
    every selection on it is empty. *)
Theorem save_tweets_keeps_report_links (table : gmap string TweetRow) date tweets
    report_id :
  dom (report_tweets (save_tweets isoformat json_dumps table date tweets).1 report_id)
  = dom (report_tweets table report_id)
  ∧ (unlinked table →
     unlinked (save_tweets isoformat json_dumps table date tweets).1
     ∧ report_tweets (save_tweets isoformat json_dumps table date tweets).1 report_id
       = ∅).
Proof.
  split.
  - apply set_eq. intros id. rewrite !report_tweets_dom.
    by rewrite save_tweets_report_id.
  - intros Hun. pose proof (save_tweets_unlinked date table tweets Hun) as Hun'.
    split; [exact Hun'|]. by apply unlinked_report_tweets.
Qed.

(** [save_report] never overwrites a report: the stored reports stay as
    they are; when the id made of the date (to the second) is free, the
    table gains that one report, with the analysis and an empty summary,
    and the id is returned; when it is taken, nothing is stored and
    [None] is returned.  So of two reports of the same second only the
    first is kept. *)
Theorem save_report_keeps_reports (reports : gmap string ReportRow) analysis date title :
  let report_id := "report_" +:+ strftime "%Y%m%d_%H%M%S" date in
  let out := save_report strftime isoformat reports analysis date title in
  reports ⊆ out.1
  ∧ (reports !! report_id = None →
     out.2 = Some report_id
     ∧ dom out.1 = {[report_id]} ∪ dom reports
     ∧ ∃ row, out.1 !! report_id = Some row
         ∧ rep_analysis row = analysis ∧ rep_summary row = "")
  ∧ (is_Some (reports !! report_id) → out = (reports, None))
  ∧ ∀ analysis' title',
      save_report strftime isoformat out.1 analysis' date title' = (out.1, None).
Proof.
  intros report_id out. unfold out, save_report. fold report_id.
  destruct (reports !! report_id) as [row0|] eqn:Hrow.
  - simpl. split_and!.
    + done.
    + done.
    + done.
    + intros analysis' title'. by rewrite Hrow.
  - simpl. split_and!.
    + by apply insert_subseteq.
    + intros _. split_and!; [done|by rewrite dom_insert_L|].
      eexists. rewrite lookup_insert_eq. done.
    + by intros [? ?].
    + intros analysis' title'. by rewrite lookup_insert_eq.
Qed.

Lemma save_loop_storable date (table : gmap string TweetRow) tweets :
  (∀ tweet, tweet ∈ tweets → storable tweet) →
  ∃ table', save_loop isoformat json_dumps date table tweets = Some table'.
Proof.
  revert table. induction tweets as [|tweet rest IH]; intros table Hall.
  - by exists table.
  - cbn [save_loop].
    destruct (Hall tweet) as [[d Hd] Hfit]; [by left|].
    unfold save_one. rewrite Hd, Hfit.
    destruct (table !! Tweet.id tweet);
      (apply IH; intros tweet' Hin; apply Hall; by right).
Qed.

Lemma save_loop_scores date (table table' : gmap string TweetRow) tweets :
  save_loop isoformat json_dumps date table tweets = Some table' →
  (∀ tweet, tweet ∈ tweets → is_Some (Tweet.rank_score tweet)) →
  ∀ tweet, tweet ∈ tweets →
    ∃ row, table' !! Tweet.id tweet = Some row ∧ is_Some (row_rank_score row).
Proof.
  revert table. induction tweets as [|t0 rest IH]; intros table Hrun Hall tweet Hin.
  - by apply not_elem_of_nil in Hin.
  - cbn [save_loop] in Hrun.
    destruct (save_one isoformat json_dumps date table t0) as [table1|] eqn:Hone;
      [|done].
    assert (Hrest : ∀ t, t ∈ rest → is_Some (Tweet.rank_score t))
      by (intros t Ht; apply Hall; by right).
    destruct (decide (Tweet.id tweet ∈ (Tweet.id <$> rest))) as [Hlater|Hlast].
    + apply list_elem_of_fmap in Hlater as (t' & Hid & Ht').
      rewrite Hid. by apply (IH table1).
    + apply elem_of_cons in Hin as [->|Hin].
      2: { destruct Hlast. apply list_elem_of_fmap. by exists tweet. }
      rewrite (save_loop_other_id _ _ _ _ _ _ _ Hrun Hlast).
      apply save_one_outcome in Hone as (_ & _ & row & Hrow & _ & _ & _ & _ & Hs & _).
      exists row. split; [done|]. rewrite Hs. apply Hall. by left.
Qed.

End ReportFacts.

Section DailyRunFacts.

Variable math_exp : Q → Q.
Variable strftime : string → datetime → string.
Variable isoformat : datetime → string.
Variable json_dumps : list string → string.

(** The stored part of the daily run: the items are ranked, the first
    [k] are saved, then the report is saved.  For a non-empty batch of
    storable items and a positive [k], [save_tweets] succeeds; afterwards
    every kept item is known to the database and its row holds a score.
    But when no stored row belonged to a report before, the report read
    back with the id that [save_report] returned has the analysis and no
    item: nothing links the saved items to the report. *)
Theorem daily_run_stores_ranked_items self clock heap tweets self' heap' ranked
    (k : Z) (table : gmap string TweetRow) (reports : gmap string ReportRow)
    collection_date analysis date :
  rank math_exp self clock heap tweets = Ok (self', heap', ranked) →
  tweets ≠ [] → (0 < k)%Z →
  (∀ r, r ∈ tweets → storable (heap r)) →
  let top_tweets := heap' <$> slice_to k ranked in
  ∃ table',
    save_tweets isoformat json_dumps table collection_date top_tweets = (table', true)
    ∧ (∀ tweet, tweet ∈ top_tweets →
         is_duplicate_tweet table' (Tweet.id tweet) = true
         ∧ ∃ row, table' !! Tweet.id tweet = Some row
             ∧ is_Some (row_rank_score row))
    ∧ (unlinked table →
       ∀ reports' report_id,
         save_report strftime isoformat reports analysis date None
         = (reports', Some report_id) →
         ∃ report, get_report reports' table' report_id = Some (report, ∅)
                   ∧ rep_analysis report = analysis).
Proof.
  intros Hrun Hne Hk Hall top_tweets.
  pose proof Hrun as Hinv. apply (rank_inv math_exp) in Hinv as [Hscore Hranked].
  destruct (score_tweets_frame math_exp _ _ _ _ _ _ Hscore) as (Hsame & _ & Hscored).
  pose proof (sorted_desc_perm (sort_key heap') tweets) as Hperm.
  rewrite <- Hranked in Hperm.
  assert (Hin : ∀ tweet, tweet ∈ top_tweets →
            ∃ r, r ∈ tweets ∧ tweet = heap' r).
  { intros tweet Ht. apply list_elem_of_fmap in Ht as (r & -> & Hr).
    exists r. split; [|done]. rewrite <- Hperm.
    destruct (slice_to_take k ranked) as (n & Hn & _). rewrite Hn in Hr.
    by apply elem_of_take in Hr as (i & Hr%list_elem_of_lookup_2 & _). }
  assert (Hstor : ∀ tweet, tweet ∈ top_tweets → storable tweet).
  { intros tweet Ht. destruct (Hin tweet Ht) as (r & Hr & ->).
    destruct (Hall r Hr) as [Hd Hfit]. destruct (Hsame r) as (Hid & Ha & Hf & Hc & Hcr & Hu & Hp & Hl & Hrt & Hrp & Hq & _).
    split; [by rewrite <- Hcr|].
    unfold counts_bindable in *. by rewrite <- Hl, <- Hrt, <- Hrp, <- Hq. }
  assert (Htop : top_tweets ≠ []).
  { unfold top_tweets. intros Hnil. apply fmap_nil_inv in Hnil.
    destruct (slice_to_take k ranked) as (n & Hn & Hpos & _).
    rewrite Hn, (Hpos ltac:(lia)) in Hnil.
    apply (f_equal length) in Hnil. rewrite length_take in Hnil.
    apply Permutation_length in Hperm.
    destruct tweets; [done|]. simpl in Hperm, Hnil. lia. }
  destruct (save_loop_storable isoformat json_dumps collection_date table top_tweets Hstor)
    as [table' Hloop].
  assert (Hsave : save_tweets isoformat json_dumps table collection_date top_tweets
                  = (table', true)).
  { unfold save_tweets. rewrite Hloop. by destruct top_tweets. }
  exists table'. split_and!.
  - exact Hsave.
  - intros tweet Ht. split.
    + by apply (proj1 (save_tweets_duplicates _ _ _ _ _ _ Hsave)).
    + apply (save_loop_scores isoformat json_dumps collection_date table table'
               top_tweets Hloop); [|done].
      intros t Hti. destruct (Hin t Hti) as (r & Hr & ->).
      destruct (Hscored r Hr) as (score & reason & Hs & _). by rewrite Hs.
  - intros Hun reports' report_id Hrep.
    pose proof (save_tweets_unlinked isoformat json_dumps collection_date table
                  top_tweets Hun) as Hun'.
    rewrite Hsave in Hun'. simpl in Hun'.
    unfold save_report in Hrep.
    destruct (reports !! ("report_" +:+ strftime "%Y%m%d_%H%M%S" date)) eqn:Hfree;
      [discriminate Hrep|].
    injection Hrep as <- <-. unfold get_report. rewrite lookup_insert_eq.
    rewrite (unlinked_report_tweets table' _ Hun').
    eexists. split; reflexivity.
Qed.

End DailyRunFacts.

Lemma sample_heap_storable r :
  r ∈ [3; 2; 1; 0]%nat → storable (sample_heap r).
Proof.
  intros Hr.
  repeat (apply elem_of_cons in Hr as [->|Hr];
          [split; [eexists; reflexivity|reflexivity]|]).
  by apply not_elem_of_nil in Hr.
Qed.

Lemma daily_run_stores_ranked_items_witness :
  ∃ self' heap' ranked table',
    rank exp_sample sample_ranker sample_clock sample_heap [3; 2; 1; 0]
    = Ok (self', heap', ranked)
    ∧ save_tweets sample_isoformat sample_json_dumps sample_table "day 2"
        (heap' <$> slice_to 2 ranked) = (table', true).
Proof.
  destruct (rank exp_sample sample_ranker sample_clock sample_heap [3; 2; 1; 0])
    as [[[self' heap'] ranked]|e] eqn:Hrun.
  - destruct (daily_run_stores_ranked_items exp_sample (λ format _, format)
                sample_isoformat sample_json_dumps sample_ranker sample_clock
                sample_heap [3; 2; 1; 0] self' heap' ranked 2 sample_table ∅
                "day 2" "analysis" sample_now Hrun)
      as (table' & Hsave & _).
    + discriminate.
    + lia.
    + exact sample_heap_storable.
    + exists self', heap', ranked, table'. split; [reflexivity|exact Hsave].
  - vm_compute in Hrun. discriminate Hrun.
Defined.
